(** * Timesheet dashboard: time-entry derivation, aggregation and
      commit-based hour estimation

    A shallow embedding of the pure core of the dashboard
    (label decoding, day and week aggregation, range filtering, the
    commit estimator) and of the plan loader of the main view, with the
    properties of its specification.

    Conventions of the embedding.
    - A JavaScript [number] is an IEEE 754 binary64 value.  The finite
      values are rationals ([Q]), and an arithmetic operation of the
      commit estimator is the exact operation followed by the rounding
      of the format, to the nearest value with 53 significant bits, a
      tie going to the even one (module [Binary64]).  [NaN] and the
      infinities are not represented: the code meets them only at an
      invalid date and at magnitudes above 1.7e308.  The hour values of
      time entries are quarter hours out of the label tables; binary64
      adds them without error, and their sums are written with the
      exact addition.  A [number] that only holds integers (a time
      value, a percentage, a priority) is a [Z].
    - A slot that the types declare a [number] may hold something else
      at run time: indexing an object literal also finds the members
      that it inherits from [Object.prototype].  Such slots hold a
      [JS.value].
    - A [Date] is its time value in milliseconds ([Z]).  The local time
      zone is taken to have a fixed offset from UTC, which is folded into
      the time value: local midnight is a multiple of [msPerDay].  The
      Invalid Date arises only as a result of [parseISO]; it is the
      [None] of that result, and an operation that throws on it makes
      the enclosing function return [None].
    - A JavaScript object or [Map] iterated in insertion order is an
      association list.
    - [Array.prototype.sort] with a comparator is the stable sort that
      the language standard prescribes; it is embedded as a stable
      insertion sort. *)

From Stdlib Require Import ZArith QArith Qminmax Qround Qpower List Bool Lia Lqa.
From Stdlib Require Import Strings.String Strings.Ascii Numbers.DecimalString.
From Stdlib Require Import Sorting.Permutation Sorting.Sorted.
From Stdlib Require Floats Uint63.
Import ListNotations.

Local Open Scope string_scope.
Local Open Scope list_scope.
Local Open Scope Z_scope.

(** ** The arithmetic of JavaScript numbers *)

Module Binary64.

(** The exponent of a positive number [x]: the [e] with
    [2^e <= x < 2^(e+1)]. *)
Definition exponent (x : Q) : Z :=
  let e0 := Z.log2 (Qnum x) - Z.log2 (Z.pos (Qden x)) in
  if Qle_bool (2 ^ e0) x then e0 else e0 - 1.

(** The nearest integer, the even one of the two when [y] lies midway. *)
Definition round_even (y : Q) : Z :=
  let f := Qfloor y in
  match (y - inject_Z f ?= 1 # 2)%Q with
  | Lt => f
  | Gt => f + 1
  | Eq => if Z.even f then f else f + 1
  end.

(** The distance between the consecutive values of the format around a
    positive [x]: 53 significant bits, the exponent not below -1022
    (below it the values are the subnormal ones, [2^-1074] apart). *)
Definition ulp (x : Q) : Q := (2 ^ (Z.max (exponent x) (-1022) - 52))%Q.

Definition round_pos (x : Q) : Q :=
  (inject_Z (round_even (x / ulp x)) * ulp x)%Q.

(** The value of the format nearest to [x], a tie going to the value
    with the even significand. *)
Definition round (x : Q) : Q :=
  match (x ?= 0)%Q with
  | Eq => 0%Q
  | Gt => round_pos x
  | Lt => (- round_pos (- x))%Q
  end.

(** [a + b], [a - b], [a * b] and [a / b] on values of the format. *)
Definition add (a b : Q) : Q := round (a + b).
Definition sub (a b : Q) : Q := round (a - b).
Definition mul (a b : Q) : Q := round (a * b).
Definition div (a b : Q) : Q := round (a / b).

(** The operations above are compared, on sample inputs, with the
    binary64 floats of the kernel.  [of_float] is the rational that
    such a float holds, when it is finite; [float_of_Z] is the float of
    an integer below [2^63] in magnitude. *)
Definition of_float (f : PrimFloat.float) : option Q :=
  match FloatOps.Prim2SF f with
  | SpecFloat.S754_zero _ => Some 0%Q
  | SpecFloat.S754_finite s m e =>
      let v := (inject_Z (Z.pos m) * 2 ^ e)%Q in
      Some (if s then (- v)%Q else v)
  | _ => None
  end.

Definition float_of_Z (z : Z) : PrimFloat.float :=
  if z <? 0 then PrimFloat.opp (PrimFloat.of_uint63 (Uint63.of_Z (- z)))
  else PrimFloat.of_uint63 (Uint63.of_Z z).

(** The float [f] holds the rational [q]. *)
Definition holds (f : PrimFloat.float) (q : Q) : bool :=
  match of_float f with
  | Some x => Qeq_bool x q
  | None => false
  end.

End Binary64.

(** ** JavaScript built-ins used by the code *)

Module JS.

Section StableSort.
Context {A : Type}.
(** [cmp a b] is the sign-carrying value returned by the comparator;
    [b] is placed before [a] exactly when [cmp a b > 0].  The
    comparators of the code return the difference of two time values;
    only its sign counts, and the rounding of the format keeps it. *)
Variable cmp : A -> A -> Z.

Fixpoint insert (x : A) (l : list A) : list A :=
  match l with
  | [] => [x]
  | y :: l' => if 0 <? cmp x y then y :: insert x l' else x :: y :: l'
  end.

(** The elements are inserted from the right, and an element moves past
    the elements that sort strictly before it only: it stays in front
    of the equal elements that followed it (stability). *)
Definition sort (l : list A) : list A := fold_right insert [] l.
End StableSort.

(** The comparator of [Array.prototype.sort()] without argument on
    strings: code-unit order. *)
Definition string_cmp (a b : string) : Z :=
  match String.compare a b with Lt => -1 | Eq => 0 | Gt => 1 end.

Definition sort_strings (l : list string) : list string := sort string_cmp l.

Section InsertionOrderedMap.
Context {V : Type}.

Definition MapOf := list (string * V).

Fixpoint map_get (k : string) (m : MapOf) : option V :=
  match m with
  | [] => None
  | (k', v) :: m' => if String.eqb k' k then Some v else map_get k m'
  end.

Definition map_has (k : string) (m : MapOf) : bool :=
  match map_get k m with Some _ => true | None => false end.

(** [Map.prototype.set]: an existing key keeps its position. *)
Fixpoint map_set (k : string) (v : V) (m : MapOf) : MapOf :=
  match m with
  | [] => [(k, v)]
  | (k', v') :: m' =>
      if String.eqb k' k then (k', v) :: m' else (k', v') :: map_set k v m'
  end.

Definition map_keys (m : MapOf) : list string := List.map fst m.
End InsertionOrderedMap.
Arguments MapOf : clear implicits.

(** [if (!m.has(k)) m.set(k, []); m.get(k).push(x)] *)
Definition map_push {A : Type} (k : string) (x : A) (m : MapOf (list A))
  : MapOf (list A) :=
  let m1 := if map_has k m then m else map_set k [] m in
  match map_get k m1 with
  | Some l => map_set k (l ++ [x]) m1
  | None => m1
  end.

(** [Math.round]: the nearest integer, a tie going up. *)
Definition Math_round (x : Q) : Z := Qfloor (x + (1 # 2)).

(** Decimal rendering of an integer, as [Number.prototype.toString]. *)
Definition string_of_Z (n : Z) : string := NilZero.string_of_int (Z.to_int n).

Fixpoint fraction_digits (fuel : nat) (num den : Z) : string :=
  match fuel with
  | O => ""
  | S fuel' =>
      if num =? 0 then ""
      else String (ascii_of_N (48 + Z.to_N (10 * num / den)))
                  (fraction_digits fuel' ((10 * num) mod den) den)
  end.

(** Rendering of a number inside a template literal.  Integers are
    rendered exactly; a fraction is rendered by its decimal expansion,
    which is what JavaScript prints when that expansion is short (all
    the values of the category tables are of this kind: at most two
    fraction digits). *)
Definition string_of_number (q : Q) : string :=
  let n := Qnum q in
  let d := Z.pos (Qden q) in
  let whole := Z.abs n / d in
  let frac := Z.abs n mod d in
  let sign := if n <? 0 then "-" else "" in
  let fraction :=
    if frac =? 0 then "" else ("." ++ fraction_digits 20 frac d)%string in
  (sign ++ string_of_Z whole ++ fraction)%string.

(** [||] on a possibly undefined number: [undefined] and [0] are falsy. *)
Definition number_or (x : option Q) (dflt : Q) : Q :=
  match x with
  | Some q => if Qeq_bool q 0 then dflt else q
  | None => dflt
  end.

(** The names of the members of [Object.prototype], which every object
    literal inherits. *)
Definition Object_prototype : list string :=
  [ "constructor"; "hasOwnProperty"; "isPrototypeOf"; "propertyIsEnumerable";
    "toLocaleString"; "toString"; "valueOf"; "__proto__";
    "__defineGetter__"; "__defineSetter__"; "__lookupGetter__";
    "__lookupSetter__" ].

(** What a slot declared [number] holds at run time: a number, a member
    of [Object.prototype] (a function; for [__proto__] the prototype
    itself), or a string made by [+]. *)
Inductive value : Type :=
| Num (q : Q)
| Member (name : string)
| Str (s : string).

(** [o[k]] on an object literal [o] whose own properties are numbers:
    an own property, else the member of that name inherited from
    [Object.prototype], else [undefined]. *)
Definition object_get (k : string) (o : MapOf Q) : option value :=
  match map_get k o with
  | Some q => Some (Num q)
  | None =>
      if existsb (String.eqb k) Object_prototype then Some (Member k)
      else None
  end.

(** The text of a member of [Object.prototype] in a string context, as
    V8 prints a built-in function; engines differ in the white space. *)
Definition member_text (name : string) : string :=
  if String.eqb name "__proto__" then "[object Object]"
  else
    let f := if String.eqb name "constructor" then "Object" else name in
    ("function " ++ f ++ "() { [native code] }")%string.

Definition to_string (v : value) : string :=
  match v with
  | Num q => string_of_number q
  | Member name => member_text name
  | Str s => s
  end.

(** [a + b]: the sum of two numbers, else the concatenation of the
    texts of [a] and [b]. *)
Definition add (a b : value) : value :=
  match a, b with
  | Num x, Num y => Num (x + y)
  | _, _ => Str (to_string a ++ to_string b)
  end.

(** [x || dflt]: [undefined], [0] and the empty string are falsy, a
    function or an object is not. *)
Definition value_or (x : option value) (dflt : value) : value :=
  match x with
  | Some (Num q) => if Qeq_bool q 0 then dflt else Num q
  | Some (Member name) => Member name
  | Some (Str s) => if String.eqb s "" then dflt else Str s
  | None => dflt
  end.

(** [String.prototype.padStart(n, "0")] *)
Definition padStart0 (n : nat) (s : string) : string :=
  (string_of_list_ascii (repeat "0"%char (n - String.length s)%nat) ++ s)%string.

(** [String.prototype.split] on a one-character separator. *)
Fixpoint split_on (sep : ascii) (s : string) : list string :=
  match s with
  | EmptyString => [""]
  | String c s' =>
      if Ascii.eqb c sep then "" :: split_on sep s'
      else match split_on sep s' with
           | [] => [String c ""]
           | w :: ws => String c w :: ws
           end
  end.

(** [Array.prototype.join] *)
Fixpoint join (sep : string) (l : list string) : string :=
  match l with
  | [] => ""
  | [x] => x
  | x :: l' => (x ++ sep ++ join sep l')%string
  end.

(** [Array.prototype.map] with a callback that may throw: the first
    exception aborts the whole call. *)
Fixpoint traverse {A B : Type} (f : A -> option B) (l : list A)
  : option (list B) :=
  match l with
  | [] => Some []
  | x :: l' =>
      match f x with
      | None => None
      | Some y =>
          match traverse f l' with
          | None => None
          | Some ys => Some (y :: ys)
          end
      end
  end.

(** [String.prototype.includes] *)
Fixpoint includes (needle s : string) : bool :=
  String.prefix needle s ||
  match s with
  | EmptyString => false
  | String _ s' => includes needle s'
  end.

End JS.

(** ** The date-fns operations used by the code

    The library is not part of the repository; its operations are
    embedded on the proleptic Gregorian calendar that JavaScript dates
    follow.  Day [0] is 1970-01-01, a Thursday. *)

Module DateFns.

Definition msPerDay : Z := 86400000.
Definition msPerHour : Z := 3600000.

Definition dayNumber (t : Z) : Z := t / msPerDay.
Definition startOfDay (t : Z) : Z := dayNumber t * msPerDay.
Definition addDays (t n : Z) : Z := t + n * msPerDay.
Definition addHours (t n : Z) : Z := t + n * msPerHour.

(** [Date.prototype.getDay]: 0 is Sunday. *)
Definition getDay (t : Z) : Z := (dayNumber t + 4) mod 7.

Definition startOfWeek (weekStartsOn t : Z) : Z :=
  let day := getDay t in
  let diff := (if day <? weekStartsOn then 7 else 0) + day - weekStartsOn in
  startOfDay (addDays t (- diff)).

Definition endOfWeek (weekStartsOn t : Z) : Z :=
  let day := getDay t in
  let diff := (if day <? weekStartsOn then -7 else 0) + 6 - (day - weekStartsOn) in
  startOfDay (addDays t diff) + (msPerDay - 1).

(** The local midnights from the day of [start] up to [finish].  The
    code only passes intervals with [start <= finish]. *)
Definition eachDayOfInterval (start finish : Z) : list Z :=
  let first := startOfDay start in
  List.map (fun i => addDays first (Z.of_nat i))
           (seq 0 (Z.to_nat ((finish - first) / msPerDay + 1))).

(** *** Civil dates *)

Record CivilDate := mkCivil { year : Z; month : Z; day : Z }.

Definition isLeapYear (y : Z) : bool :=
  ((y mod 4 =? 0) && negb (y mod 100 =? 0)) || (y mod 400 =? 0).

(** Days from 0001-01-01 to the first of January of year [y]. *)
Definition daysBeforeYear (y : Z) : Z :=
  let k := y - 1 in 365 * k + k / 4 - k / 100 + k / 400.

(** 1970-01-01 counted from 0001-01-01. *)
Definition epochDays : Z := 719162.

Definition yearOfDays (n : Z) : Z :=
  let y0 := 400 * n / 146097 + 1 in
  if n <? daysBeforeYear y0 then y0 - 1
  else if daysBeforeYear (y0 + 1) <=? n then y0 + 1
  else y0.

Definition cumulativeDays : list Z :=
  [0; 31; 59; 90; 120; 151; 181; 212; 243; 273; 304; 334; 365].

(** Days of the year before the first of month [m] (1..13). *)
Definition daysBeforeMonth (leap : bool) (m : Z) : Z :=
  nth (Z.to_nat (m - 1)) cumulativeDays 0
  + (if leap && (2 <? m) then 1 else 0).

Definition daysInMonth (y m : Z) : Z :=
  daysBeforeMonth (isLeapYear y) (m + 1) - daysBeforeMonth (isLeapYear y) m.

Fixpoint findMonth (months : list Z) (leap : bool) (doy : Z) : Z :=
  match months with
  | [] => 12
  | m :: months' =>
      if doy <? daysBeforeMonth leap (m + 1) then m
      else findMonth months' leap doy
  end.

Definition civilOfDay (d : Z) : CivilDate :=
  let n := d + epochDays in
  let y := yearOfDays n in
  let doy := n - daysBeforeYear y in
  let m := findMonth [1; 2; 3; 4; 5; 6; 7; 8; 9; 10; 11] (isLeapYear y) doy in
  mkCivil y m (doy - daysBeforeMonth (isLeapYear y) m + 1).

Definition dayOfCivil (c : CivilDate) : Z :=
  daysBeforeYear (year c) + daysBeforeMonth (isLeapYear (year c)) (month c)
  + (day c - 1) - epochDays.

Definition civil (t : Z) : CivilDate := civilOfDay (dayNumber t).

(** *** Formatting *)

(** [addLeadingZeros] *)
Definition addLeadingZeros (n : Z) (targetLength : nat) : string :=
  let sign := if n <? 0 then "-" else "" in
  (sign ++ JS.padStart0 targetLength (JS.string_of_Z (Z.abs n)))%string.

(** Token [yyyy]: the year of the era, at least four digits. *)
Definition format_yyyy (c : CivilDate) : string :=
  let signedYear := year c in
  addLeadingZeros (if 0 <? signedYear then signedYear else 1 - signedYear) 4.

Definition format_MM (c : CivilDate) : string := addLeadingZeros (month c) 2.
Definition format_dd (c : CivilDate) : string := addLeadingZeros (day c) 2.

Definition monthAbbreviations : list string :=
  ["Jan"; "Feb"; "Mar"; "Apr"; "May"; "Jun";
   "Jul"; "Aug"; "Sep"; "Oct"; "Nov"; "Dec"].

Definition weekdayNames : list string :=
  ["Sunday"; "Monday"; "Tuesday"; "Wednesday"; "Thursday"; "Friday";
   "Saturday"].

Definition format_MMM (c : CivilDate) : string :=
  nth (Z.to_nat (month c - 1)) monthAbbreviations "".

(** [format(date, 'yyyy-MM-dd')] *)
Definition format_ymd (t : Z) : string :=
  let c := civil t in
  (format_yyyy c ++ "-" ++ format_MM c ++ "-" ++ format_dd c)%string.

(** [format(date, 'MMM dd, yyyy')] *)
Definition format_MMM_dd_yyyy (t : Z) : string :=
  let c := civil t in
  (format_MMM c ++ " " ++ format_dd c ++ ", " ++ format_yyyy c)%string.

(** [format(date, 'MMM dd')] *)
Definition format_MMM_dd (t : Z) : string :=
  let c := civil t in (format_MMM c ++ " " ++ format_dd c)%string.

(** [format(date, 'EEEE')] *)
Definition format_EEEE (t : Z) : string :=
  nth (Z.to_nat (getDay t)) weekdayNames "".

(** *** Parsing *)

Definition digitValue (c : ascii) : option Z :=
  let n := Z.of_N (N_of_ascii c) in
  if (48 <=? n) && (n <=? 57) then Some (n - 48) else None.

Fixpoint digitsValue (acc : Z) (l : list ascii) : option Z :=
  match l with
  | [] => Some acc
  | c :: l' =>
      match digitValue c with
      | Some v => digitsValue (10 * acc + v) l'
      | None => None
      end
  end.

Definition validateDate (c : CivilDate) : bool :=
  (1 <=? month c) && (month c <=? 12) &&
  (1 <=? day c) && (day c <=? daysInMonth (year c) (month c)).

(** [parseISO] on the extended calendar-date form [yyyy-MM-dd], the
    only form the aggregation code passes to it (keys rendered by
    [format_ymd]); the result is the local midnight of that date.  A
    key whose year has more than four digits is not a date for
    [parseISO]: the result is the Invalid Date. *)
Definition parseISO (s : string) : option Z :=
  match list_ascii_of_string s with
  | [y1; y2; y3; y4; sep1; m1; m2; sep2; d1; d2] =>
      match digitsValue 0 [y1; y2; y3; y4],
            digitsValue 0 [m1; m2], digitsValue 0 [d1; d2] with
      | Some y, Some m, Some d =>
          let c := mkCivil y m d in
          if Ascii.eqb sep1 "-" && Ascii.eqb sep2 "-" && validateDate c
          then Some (dayOfCivil c * msPerDay)
          else None
      | _, _, _ => None
      end
  | _ => None
  end.

End DateFns.

(** ** Data model (types/planner.ts) *)

Module PlannerTask.
(** The fields of a remote task record that the code reads.  A
    timestamp field holds the time value of the ISO string of the
    payload; an absent optional field is [None]. *)
Record t := mk {
  id : string;
  title : string;
  planId : string;
  bucketId : string;
  createdDateTime : Z;
  dueDateTime : option Z;
  startDateTime : option Z;
  completedDateTime : option Z;
  percentComplete : Z;
  priority : Z;
  appliedCategories : list (string * bool)
}.
End PlannerTask.

Module ChecklistItem.
Record t := mk {
  title : string;
  isChecked : bool;
  hours : option Q
}.
End ChecklistItem.

Module TimeEntry.
Record t := mk {
  id : string;
  date : Z;
  title : string;
  description : string;
  hours : JS.value;
  project : option string;
  workType : option string;
  bucketName : option string;
  categoryLabel : option string;
  isCompleted : bool;
  completedDate : option Z;
  dueDate : option Z;
  priority : Z;
  percentComplete : Z;
  checklistItems : list ChecklistItem.t;
  rawTask : PlannerTask.t
}.
End TimeEntry.

Module DailyTimesheet.
Record t := mk {
  date : Z;
  dateStr : string;
  dayName : string;
  entries : list TimeEntry.t;
  totalHours : JS.value
}.
End DailyTimesheet.

Module WeeklyTimesheet.
Record t := mk {
  weekStart : Z;
  weekEnd : Z;
  weekLabel : string;
  days : list DailyTimesheet.t;
  totalHours : JS.value
}.
End WeeklyTimesheet.

(** ** The time parser service: label decoder, entry builder,
       aggregator and range filter *)

Module TimeParser.
Import DateFns.

Definition CATEGORY_HOURS_MAP : JS.MapOf Q :=
  [ ("category1", 1 # 2); ("category2", 1 # 1); ("category3", 2 # 1);
    ("category4", 3 # 1); ("category5", 4 # 1); ("category6", 5 # 1);
    ("category7", 6 # 1); ("category8", 7 # 1); ("category9", 8 # 1) ]%Q.

Definition DIRECT_HOURS_MAP : JS.MapOf Q :=
  [
    ("0.5h", 1 # 2); ("0.5 h", 1 # 2); ("0.5H", 1 # 2); ("0.5 H", 1 # 2);
    ("1h", 1 # 1); ("1 h", 1 # 1); ("1H", 1 # 1); ("1 H", 1 # 1);
    ("1.5h", 3 # 2); ("1.5 h", 3 # 2); ("1.5H", 3 # 2); ("1.5 H", 3 # 2);
    ("2h", 2 # 1); ("2 h", 2 # 1); ("2H", 2 # 1); ("2 H", 2 # 1);
    ("2.5h", 5 # 2); ("2.5 h", 5 # 2); ("2.5H", 5 # 2); ("2.5 H", 5 # 2);
    ("3h", 3 # 1); ("3 h", 3 # 1); ("3H", 3 # 1); ("3 H", 3 # 1);
    ("3.5h", 7 # 2); ("3.5 h", 7 # 2); ("3.5H", 7 # 2); ("3.5 H", 7 # 2);
    ("4h", 4 # 1); ("4 h", 4 # 1); ("4H", 4 # 1); ("4 H", 4 # 1);
    ("4.5h", 9 # 2); ("4.5 h", 9 # 2); ("4.5H", 9 # 2); ("4.5 H", 9 # 2);
    ("5h", 5 # 1); ("5 h", 5 # 1); ("5H", 5 # 1); ("5 H", 5 # 1);
    ("5.5h", 11 # 2); ("5.5 h", 11 # 2); ("5.5H", 11 # 2); ("5.5 H", 11 # 2);
    ("6h", 6 # 1); ("6 h", 6 # 1); ("6H", 6 # 1); ("6 H", 6 # 1);
    ("6.5h", 13 # 2); ("6.5 h", 13 # 2); ("6.5H", 13 # 2); ("6.5 H", 13 # 2);
    ("7h", 7 # 1); ("7 h", 7 # 1); ("7H", 7 # 1); ("7 H", 7 # 1);
    ("7.5h", 15 # 2); ("7.5 h", 15 # 2); ("7.5H", 15 # 2); ("7.5 H", 15 # 2);
    ("8h", 8 # 1); ("8 h", 8 # 1); ("8H", 8 # 1); ("8 H", 8 # 1);
    ("9h", 9 # 1); ("9 h", 9 # 1); ("9H", 9 # 1); ("9 H", 9 # 1);
    ("10h", 10 # 1); ("10 h", 10 # 1); ("10H", 10 # 1); ("10 H", 10 # 1);
    ("12h", 12 # 1); ("12 h", 12 # 1); ("12H", 12 # 1); ("12 H", 12 # 1);
    ("30m", 1 # 2); ("30 m", 1 # 2); ("30min", 1 # 2); ("30 min", 1 # 2);
    ("15m", 1 # 4); ("15 m", 1 # 4); ("15min", 1 # 4); ("15 min", 1 # 4);
    ("45m", 3 # 4); ("45 m", 3 # 4); ("45min", 3 # 4); ("45 min", 3 # 4) ]%Q.

Definition getCategoryDisplayLabel (category : string) : string :=
  match JS.object_get category CATEGORY_HOURS_MAP with
  | None => category
  | Some (JS.Num hours) =>
      if negb (Qle_bool 1 hours)
      then (JS.string_of_Z (JS.Math_round (Binary64.mul hours 60)) ++ "m")%string
      else (JS.string_of_number hours ++ "h")%string
  | Some hours =>
      (* [hours < 1] is false: an inherited member converts to [NaN] *)
      (JS.to_string hours ++ "h")%string
  end.

Record CategoryHours := mkCategoryHours {
  hours : JS.value;
  categoryName : string;
  displayLabel : string
}.

(** First loop: category identifiers. *)
Fixpoint categoryLoop (entries : list (string * bool)) : option CategoryHours :=
  match entries with
  | [] => None
  | (category, isApplied) :: rest =>
      match (if isApplied then JS.object_get category CATEGORY_HOURS_MAP
             else None) with
      | Some h => Some (mkCategoryHours h category
                                        (getCategoryDisplayLabel category))
      | None => categoryLoop rest
      end
  end.

(** Second loop: direct hour labels. *)
Fixpoint directLoop (entries : list (string * bool)) : option CategoryHours :=
  match entries with
  | [] => None
  | (category, isApplied) :: rest =>
      match (if isApplied then JS.object_get category DIRECT_HOURS_MAP
             else None) with
      | Some h => Some (mkCategoryHours h category category)
      | None => directLoop rest
      end
  end.

(** [categories] is the list [Object.entries(categories)]. *)
Definition parseHoursFromCategories (categories : list (string * bool))
  : option CategoryHours :=
  match categoryLoop categories with
  | Some r => Some r
  | None => directLoop categories
  end.

Definition taskToTimeEntry (task : PlannerTask.t) (bucketName : option string)
  : TimeEntry.t :=
  let categoryHours := parseHoursFromCategories (PlannerTask.appliedCategories task) in
  let entryDate :=
    match PlannerTask.dueDateTime task with
    | Some d => d
    | None =>
        match PlannerTask.startDateTime task with
        | Some d => d
        | None => PlannerTask.createdDateTime task
        end
    end in
  {| TimeEntry.id := PlannerTask.id task;
     TimeEntry.date := entryDate;
     TimeEntry.title := PlannerTask.title task;
     TimeEntry.description := "";
     TimeEntry.hours := JS.value_or (option_map hours categoryHours) (JS.Num 0);
     TimeEntry.project := None;
     TimeEntry.workType := bucketName;
     TimeEntry.bucketName := bucketName;
     TimeEntry.categoryLabel := option_map displayLabel categoryHours;
     TimeEntry.isCompleted := PlannerTask.percentComplete task =? 100;
     TimeEntry.completedDate := PlannerTask.completedDateTime task;
     TimeEntry.dueDate := PlannerTask.dueDateTime task;
     TimeEntry.priority := PlannerTask.priority task;
     TimeEntry.percentComplete := PlannerTask.percentComplete task;
     TimeEntry.checklistItems := [];
     TimeEntry.rawTask := task |}.

(** [entries.reduce((sum, e) => sum + e.hours, 0)] *)
Definition sumHours (entries : list TimeEntry.t) : JS.value :=
  fold_left (fun sum e => JS.add sum (TimeEntry.hours e)) entries (JS.Num 0).

(** The comparator [(a, b) => a.date.getTime() - b.date.getTime()]. *)
Definition byDateAscending (a b : TimeEntry.t) : Z :=
  TimeEntry.date a - TimeEntry.date b.

(** The grouping loop shared by both aggregations. *)
Definition groupEntries (key : TimeEntry.t -> string) (entries : list TimeEntry.t)
  : JS.MapOf (list TimeEntry.t) :=
  fold_left (fun m entry => JS.map_push (key entry) entry m) entries [].

Definition dayKey (entry : TimeEntry.t) : string :=
  format_ymd (TimeEntry.date entry).

Definition groupByDay (entries : list TimeEntry.t)
  : option (list DailyTimesheet.t) :=
  let dayMap := groupEntries dayKey entries in
  let sortedKeys := JS.sort_strings (JS.map_keys dayMap) in
  JS.traverse (fun dateKey =>
    let dayEntries :=
      match JS.map_get dateKey dayMap with Some l => l | None => [] end in
    match parseISO dateKey with
    | None => None (* [format] throws on the Invalid Date *)
    | Some date =>
        let sorted := JS.sort byDateAscending dayEntries in
        Some {| DailyTimesheet.date := date;
                DailyTimesheet.dateStr := format_MMM_dd_yyyy date;
                DailyTimesheet.dayName := format_EEEE date;
                DailyTimesheet.entries := sorted;
                DailyTimesheet.totalHours := sumHours sorted |}
    end) sortedKeys.

Definition weekKey (entry : TimeEntry.t) : string :=
  format_ymd (startOfWeek 1 (TimeEntry.date entry)).

Definition emptyDay (date : Z) : DailyTimesheet.t :=
  {| DailyTimesheet.date := date;
     DailyTimesheet.dateStr := format_MMM_dd_yyyy date;
     DailyTimesheet.dayName := format_EEEE date;
     DailyTimesheet.entries := [];
     DailyTimesheet.totalHours := JS.Num 0 |}.

Definition groupByWeek (entries : list TimeEntry.t)
  : option (list WeeklyTimesheet.t) :=
  let weekMap := groupEntries weekKey entries in
  let sortedKeys := JS.sort_strings (JS.map_keys weekMap) in
  JS.traverse (fun weekKey =>
    let weekEntries :=
      match JS.map_get weekKey weekMap with Some l => l | None => [] end in
    match parseISO weekKey with
    | None => None (* the interval and the label have no Invalid Date *)
    | Some weekStart =>
        let weekEnd := endOfWeek 1 weekStart in
        match groupByDay weekEntries with
        | None => None
        | Some days =>
            let allDays := eachDayOfInterval weekStart weekEnd in
            let daysWithEntries :=
              fold_left (fun map d =>
                           JS.map_set (format_ymd (DailyTimesheet.date d)) d map)
                        days [] in
            let completeDays :=
              List.map (fun date =>
                          match JS.map_get (format_ymd date) daysWithEntries with
                          | Some d => d
                          | None => emptyDay date
                          end) allDays in
            Some {| WeeklyTimesheet.weekStart := weekStart;
                    WeeklyTimesheet.weekEnd := weekEnd;
                    WeeklyTimesheet.weekLabel :=
                      (format_MMM_dd weekStart ++ " - "
                       ++ format_MMM_dd_yyyy weekEnd)%string;
                    WeeklyTimesheet.days := completeDays;
                    WeeklyTimesheet.totalHours := sumHours weekEntries |}
        end
    end) sortedKeys.

Definition filterByDateRange (entries : list TimeEntry.t) (startDate endDate : Z)
  : list TimeEntry.t :=
  filter (fun entry =>
            let entryDate := TimeEntry.date entry in
            (startDate <=? entryDate) && (entryDate <=? addHours endDate 23))
         entries.

End TimeParser.

(** ** The commit import component: grouping of commits and the gap
       heuristic *)

Module CommitImport.
Import DateFns.

Module GitCommit.
(** [date] is the time value of the ISO timestamp of the commit. *)
Record t := mk {
  sha : string;
  message : string;
  date : Z;
  repo : string;
  repoFullName : string;
  author : string;
  url : string
}.
End GitCommit.

Module Repo.
(** An element of [props.repos]. *)
Record t := mk {
  id : string;
  name : string;
  fullName : string;
  provider : string;
  token : string;
  gitlabUrl : option string;
  commitAuthor : option string;
  mappedPlanId : option string;
  mappedBucketId : option string;
  autoCalculate : bool;
  defaultHours : Q
}.
End Repo.

Module DraftEntry.
(** [date] is the result of [parseISO] on the date part of the key. *)
Record t := mk {
  id : string;
  date : option Z;
  repo : string;
  repoFullName : string;
  message : string;
  hours : Q;
  selected : bool;
  commits : list GitCommit.t
}.
End DraftEntry.

Definition MAX_MINUTES : Q := 4 * 60.
Definition MIN_MINUTES : Q := 15.

(** The comparator
    [(a, b) => new Date(a.date).getTime() - new Date(b.date).getTime()]. *)
Definition byCommitTime (a b : GitCommit.t) : Z :=
  GitCommit.date a - GitCommit.date b.

(** The loop over [i] from [0] to [sorted.length - 2].  A time value is
    an integer of magnitude at most 8.64e15, which the format holds. *)
Fixpoint gapLoop (sorted : list GitCommit.t) (totalMinutes : Q) : Q :=
  match sorted with
  | c :: ((n :: _) as rest) =>
      let current := inject_Z (GitCommit.date c) in
      let next := inject_Z (GitCommit.date n) in
      let diffMinutes :=
        Binary64.div (Binary64.sub next current) (inject_Z (1000 * 60)) in
      let minutes := Qmin (Qmax diffMinutes MIN_MINUTES) MAX_MINUTES in
      gapLoop rest (Binary64.add totalMinutes minutes)
  | _ => totalMinutes
  end.

Definition calculateHours (commits : list GitCommit.t) : Q :=
  match commits with
  | [] => 0%Q
  | [_] => 2%Q
  | _ =>
      let sorted := JS.sort byCommitTime commits in
      let totalMinutes := Binary64.add (gapLoop sorted 0) 30 in
      Qmin (Binary64.mul
              (inject_Z (JS.Math_round (Binary64.div totalMinutes 30)))
              (1 # 2))
           8
  end.

(** The estimator once more, on the binary64 floats of the kernel, to
    compare [calculateHours] with on sample inputs. *)
Definition Math_max (a b : PrimFloat.float) : PrimFloat.float :=
  if PrimFloat.ltb a b then b else a.

Definition Math_min (a b : PrimFloat.float) : PrimFloat.float :=
  if PrimFloat.ltb b a then b else a.

Definition Math_round (x : PrimFloat.float) : PrimFloat.float :=
  match Binary64.of_float x with
  | Some q => Binary64.float_of_Z (JS.Math_round q)
  | None => x
  end.

Fixpoint gapLoop_float (sorted : list GitCommit.t)
    (totalMinutes : PrimFloat.float) : PrimFloat.float :=
  match sorted with
  | c :: ((n :: _) as rest) =>
      let current := Binary64.float_of_Z (GitCommit.date c) in
      let next := Binary64.float_of_Z (GitCommit.date n) in
      let diffMinutes :=
        PrimFloat.div (PrimFloat.sub next current)
                      (Binary64.float_of_Z (1000 * 60)) in
      let minutes :=
        Math_min (Math_max diffMinutes (Binary64.float_of_Z 15))
                 (Binary64.float_of_Z (4 * 60)) in
      gapLoop_float rest (PrimFloat.add totalMinutes minutes)
  | _ => totalMinutes
  end.

Definition calculateHours_float (commits : list GitCommit.t)
  : PrimFloat.float :=
  match commits with
  | [] => Binary64.float_of_Z 0
  | [_] => Binary64.float_of_Z 2
  | _ =>
      let sorted := JS.sort byCommitTime commits in
      let totalMinutes :=
        PrimFloat.add (gapLoop_float sorted (Binary64.float_of_Z 0))
                      (Binary64.float_of_Z 30) in
      Math_min
        (PrimFloat.mul
           (Math_round (PrimFloat.div totalMinutes (Binary64.float_of_Z 30)))
           (PrimFloat.div (Binary64.float_of_Z 1) (Binary64.float_of_Z 2)))
        (Binary64.float_of_Z 8)
  end.

Definition commitKey (commit : GitCommit.t) : string :=
  let date := startOfDay (GitCommit.date commit) in
  (format_ymd date ++ "_" ++ GitCommit.repo commit)%string.

Definition groupCommits (commitsList : list GitCommit.t)
  : JS.MapOf (list GitCommit.t) :=
  fold_left (fun grouped commit => JS.map_push (commitKey commit) commit grouped)
            commitsList [].

(** [c.message.split('\n')[0]] *)
Definition firstLine (message : string) : string :=
  hd "" (JS.split_on "010"%char message).

(** The comparator [(a, b) => b.date.getTime() - a.date.getTime()]; a
    [NaN] returned by a comparator counts as [0]. *)
Definition byDateDescending (a b : DraftEntry.t) : Z :=
  match DraftEntry.date a, DraftEntry.date b with
  | Some ta, Some tb => tb - ta
  | _, _ => 0
  end.

Definition draftEntry (repos : list Repo.t)
    (group : string * list GitCommit.t) : DraftEntry.t :=
  let (key, repoCommits) := group in
  (* A key always holds the separator, so both parts exist. *)
  let parts := JS.split_on "_"%char key in
  let dateStr := nth 0 parts "" in
  let repo := nth 1 parts "" in
  let date := parseISO dateStr in
  let repoConfig := find (fun r => String.eqb (Repo.name r) repo) repos in
  let hours :=
    if match repoConfig with Some r => Repo.autoCalculate r | None => false end
    then calculateHours repoCommits
    else JS.number_or (option_map Repo.defaultHours repoConfig) 2 in
  {| DraftEntry.id := key;
     DraftEntry.date := date;
     DraftEntry.repo := repo;
     DraftEntry.repoFullName :=
       match repoCommits with
       | c :: _ => GitCommit.repoFullName c
       | [] => ""
       end;
     DraftEntry.message :=
       JS.join ", " (List.map (fun c => firstLine (GitCommit.message c)) repoCommits);
     DraftEntry.hours := hours;
     DraftEntry.selected := true;
     DraftEntry.commits := repoCommits |}.

Definition processCommits (repos : list Repo.t) (commitsList : list GitCommit.t)
  : list DraftEntry.t :=
  let grouped := groupCommits commitsList in
  let entries := List.map (draftEntry repos) grouped in
  JS.sort byDateDescending entries.

End CommitImport.

(** ** The main view: loading the data of a plan *)

Module App.

Module PlannerBucket.
Record t := mk {
  id : string;
  name : string;
  planId : string;
  orderHint : string
}.
End PlannerBucket.

(** A value thrown by a rejected request: whether it is an instance of
    [Error], and its message. *)
Record Thrown := mkThrown { isError : bool; message : string }.

Inductive Outcome (A : Type) : Type :=
| Resolved (value : A)
| Rejected (reason : Thrown).
Arguments Resolved {A} value.
Arguments Rejected {A} reason.

(** The remote collaborator, as the answers it gives. *)
Record GraphService := mkGraphService {
  getBuckets : string -> Outcome (list PlannerBucket.t);
  getMyTasks : Z -> Outcome (list PlannerTask.t)
}.

Inductive Request : Type :=
| GetBuckets (planId : string)
| GetMyTasks (monthsAgo : Z).

(** The refs of the view that [loadPlanData] reads or writes. *)
Record State := mkState {
  entries : list TimeEntry.t;
  allMyTasks : list TimeEntry.t;
  buckets : list PlannerBucket.t;
  selectedBucketId : option string;
  loading : bool;
  error : option string
}.

Definition set_entries (v : list TimeEntry.t) (s : State) : State :=
  mkState v (allMyTasks s) (buckets s) (selectedBucketId s) (loading s) (error s).
Definition set_allMyTasks (v : list TimeEntry.t) (s : State) : State :=
  mkState (entries s) v (buckets s) (selectedBucketId s) (loading s) (error s).
Definition set_buckets (v : list PlannerBucket.t) (s : State) : State :=
  mkState (entries s) (allMyTasks s) v (selectedBucketId s) (loading s) (error s).
Definition set_selectedBucketId (v : option string) (s : State) : State :=
  mkState (entries s) (allMyTasks s) (buckets s) v (loading s) (error s).
Definition set_loading (v : bool) (s : State) : State :=
  mkState (entries s) (allMyTasks s) (buckets s) (selectedBucketId s) v (error s).
Definition set_error (v : option string) (s : State) : State :=
  mkState (entries s) (allMyTasks s) (buckets s) (selectedBucketId s) (loading s) v.

(** The [catch] block. *)
Definition onFailure (err : Thrown) (s : State) : State :=
  let s1 :=
    if isError err && JS.includes "429" (message err)
    then set_error (Some "Too many requests. Please wait a moment and try again.") s
    else set_error (Some "Failed to load tasks. Please try again.") s in
  set_allMyTasks [] (set_entries [] s1).

(** [bucketNameMap.get(task.bucketId) || 'Unknown'] *)
Definition bucketNameOf (bucketNameMap : JS.MapOf string) (bucketId : string)
  : string :=
  match JS.map_get bucketId bucketNameMap with
  | Some n => if String.eqb n "" then "Unknown" else n
  | None => "Unknown"
  end.

(** The comparator [(a, b) => b.date.getTime() - a.date.getTime()]. *)
Definition newestFirst (a b : TimeEntry.t) : Z :=
  TimeEntry.date b - TimeEntry.date a.

(** The body of the [try] block after both requests have resolved. *)
Definition onLoaded (planId : string) (myTasks : list PlannerTask.t) (s : State)
  : State :=
  let planTasks :=
    filter (fun t => String.eqb (PlannerTask.planId t) planId) myTasks in
  match planTasks with
  | [] =>
      set_loading false
        (set_selectedBucketId None (set_entries [] (set_allMyTasks [] s)))
  | _ =>
      let bucketNameMap :=
        fold_left (fun m b => JS.map_set (PlannerBucket.id b) (PlannerBucket.name b) m)
                  (buckets s) [] in
      let timeEntries :=
        List.map (fun task =>
                    let bucketName :=
                      bucketNameOf bucketNameMap (PlannerTask.bucketId task) in
                    TimeParser.taskToTimeEntry task (Some bucketName))
                 planTasks in
      let s1 := set_allMyTasks (JS.sort newestFirst timeEntries) s in
      set_selectedBucketId None (set_entries (allMyTasks s1) s1)
  end.

(** [loadPlanData]: the state after the call and the requests issued,
    in order. *)
Definition loadPlanData (graphService : GraphService) (planId : string)
    (s : State) : State * list Request :=
  let s0 := set_error None (set_loading true s) in
  match getBuckets graphService planId with
  | Rejected err => (set_loading false (onFailure err s0), [GetBuckets planId])
  | Resolved bs =>
      let s1 := set_buckets bs s0 in
      match getMyTasks graphService 3 with
      | Rejected err =>
          (set_loading false (onFailure err s1), [GetBuckets planId; GetMyTasks 3])
      | Resolved myTasks =>
          (set_loading false (onLoaded planId myTasks s1),
           [GetBuckets planId; GetMyTasks 3])
      end
  end.

End App.

(** ** Vocabulary of the specification *)

Module Spec.
Import DateFns.

(** The dates whose [yyyy-MM-dd] rendering has a four-digit year of the
    common era: from 0001-01-01 00:00 (a Monday) up to, and excluding,
    10000-01-01 00:00, in local time. *)
Definition minSupported : Z := -62135596800000.
Definition maxSupported : Z := 253402300800000.
Definition supported (t : Z) : Prop := minSupported <= t < maxSupported.

(** [n] is rendered by [addLeadingZeros] with exactly [width] digits,
    which read back as [n]. *)
Definition rendersAs (width : nat) (n : Z) : bool :=
  let s := addLeadingZeros n width in
  match digitsValue 0 (list_ascii_of_string s) with
  | Some v => (v =? n) && Nat.eqb (String.length s) width
  | None => false
  end.

(** [P] holds of the [count] integers from [start] on. *)
Fixpoint allFrom (P : Z -> bool) (count : nat) (start : Z) : bool :=
  match count with
  | O => true
  | S count' => P start && allFrom P count' (start + 1)
  end.

(** Calendar order on civil dates. *)
Definition civilBefore (c1 c2 : CivilDate) : Prop :=
  year c1 < year c2
  \/ (year c1 = year c2 /\ month c1 < month c2)
  \/ (year c1 = year c2 /\ month c1 = month c2 /\ day c1 < day c2).

(** The sum of a list of numbers. *)
Definition sumQ (l : list Q) : Q := fold_right Qplus 0%Q l.

(** [e] falls on the calendar day whose local midnight is [day]. *)
Definition onDay (day : Z) (e : TimeEntry.t) : bool :=
  startOfDay (TimeEntry.date e) =? day.

(** The entries of a calendar day, in the order of their timestamps (the
    entries of one timestamp keep their order of arrival). *)
Definition entriesOfDay (day : Z) (entries : list TimeEntry.t)
  : list TimeEntry.t :=
  JS.sort TimeParser.byDateAscending (filter (onDay day) entries).

Definition allSupported (entries : list TimeEntry.t) : Prop :=
  Forall (fun e => supported (TimeEntry.date e)) entries.

(** The hours of every entry are a number. *)
Definition numericHours (entries : list TimeEntry.t) : Prop :=
  Forall (fun e => exists q, TimeEntry.hours e = JS.Num q) entries.

(** The number that [v] holds; [0] when it holds none. *)
Definition numberOf (v : JS.value) : Q :=
  match v with
  | JS.Num q => q
  | _ => 0%Q
  end.

(** [v] holds the number [q]. *)
Definition isNumber (v : JS.value) (q : Q) : Prop :=
  match v with
  | JS.Num x => (x == q)%Q
  | _ => False
  end.

Definition hoursOf (e : TimeEntry.t) : Q := numberOf (TimeEntry.hours e).

(** A day group as the aggregator specifies it: it is not empty, it
    holds exactly the entries of its calendar day, ascending by
    timestamp, and its total is the sum of their hours, when these are
    numbers. *)
Definition dayGroup (entries : list TimeEntry.t) (d : DailyTimesheet.t) : Prop :=
  DailyTimesheet.entries d <> []
  /\ startOfDay (DailyTimesheet.date d) = DailyTimesheet.date d
  /\ (forall e, In e (DailyTimesheet.entries d)
                <-> In e entries
                    /\ startOfDay (TimeEntry.date e) = DailyTimesheet.date d)
  /\ StronglySorted (fun a b => TimeEntry.date a <= TimeEntry.date b)
                    (DailyTimesheet.entries d)
  /\ (numericHours (DailyTimesheet.entries d) ->
      isNumber (DailyTimesheet.totalHours d)
               (sumQ (List.map hoursOf (DailyTimesheet.entries d)))).

(** A week view as the aggregator specifies it: it starts on a Monday
    at midnight, holds the seven consecutive days from that Monday, each
    with the entries of that day (the empty day when there are none),
    and, when the hours of the entries are numbers, so are the totals,
    and the total of the week is the sum of the seven daily totals. *)
Definition completeWeek (entries : list TimeEntry.t) (w : WeeklyTimesheet.t)
  : Prop :=
  let ws := WeeklyTimesheet.weekStart w in
  startOfDay ws = ws
  /\ getDay ws = 1
  /\ List.length (WeeklyTimesheet.days w) = 7%nat
  /\ List.map DailyTimesheet.date (WeeklyTimesheet.days w)
     = List.map (addDays ws) [0; 1; 2; 3; 4; 5; 6]
  /\ Forall (fun d =>
               DailyTimesheet.entries d
               = entriesOfDay (DailyTimesheet.date d) entries
               /\ (DailyTimesheet.entries d = []
                   -> d = TimeParser.emptyDay (DailyTimesheet.date d)))
            (WeeklyTimesheet.days w)
  /\ (numericHours entries ->
      Forall (fun d => exists q, DailyTimesheet.totalHours d = JS.Num q)
             (WeeklyTimesheet.days w)
      /\ isNumber (WeeklyTimesheet.totalHours w)
                  (sumQ (List.map (fun d => numberOf (DailyTimesheet.totalHours d))
                                  (WeeklyTimesheet.days w)))).





(** [q] is an integral multiple of [step]. *)
Definition multipleOf (step q : Q) : Prop :=
  exists k : Z, (q == inject_Z k * step)%Q.

(** A value of the tables: at least a quarter of an hour, at most
    [top] hours, a multiple of [step]. *)
Definition tableValue (step top q : Q) : bool :=
  Qle_bool step q && Qle_bool q top
  && (Qnum q * Z.pos (Qden step) mod (Qnum step * Z.pos (Qden q)) =? 0).

(** The gap between two commit times, in minutes, clamped to
    [[15, 240]]. *)
Definition clampedGap (current next : Z) : Q :=
  Qmin (Qmax (inject_Z (next - current) / 60000) 15) 240.

(** The same gap as the estimator computes it, in binary64. *)
Definition computedGap (current next : Z) : Q :=
  Qmin (Qmax (Binary64.div (Binary64.sub (inject_Z next) (inject_Z current))
                           60000)
             15)
       240.

(** The largest error of one rounding below [2^13]: [2^-41]. *)
Definition roundingError : Q := 1 # 2199023255552.

(** Sample commit groups: the commits of one repo at the times that
    start at [sampleStart] and lie [gaps] seconds apart. *)
Fixpoint timesFrom (start : Z) (gaps : list Z) : list Z :=
  match gaps with
  | [] => [start]
  | g :: gs => start :: timesFrom (start + 1000 * g) gs
  end.

Definition commitsApart (gaps : list Z) : list CommitImport.GitCommit.t :=
  List.map (fun t => CommitImport.GitCommit.mk "3f2a91c" "Fix week totals" t "X"
                       "acme/X" "Dev" "")
           (timesFrom 1710061200000 gaps).

(** Gaps in seconds from a linear congruential generator. *)
Fixpoint sampleGaps (n : nat) (seed : Z) : list Z :=
  match n with
  | O => []
  | S n' =>
      let seed' :=
        (seed * 6364136223846793005 + 1442695040888963407) mod 2 ^ 62 in
      (seed' mod 16001) :: sampleGaps n' seed'
  end.

Fixpoint groupsOf (size : nat) (count : nat) (gaps : list Z) : list (list Z) :=
  match count with
  | O => []
  | S count' => firstn size gaps :: groupsOf size count' (skipn size gaps)
  end.

Definition sampleGroups : list (list Z) :=
  [ [1558; 1991; 951]; [600]; [21600]; [1; 2; 3]; [899; 901; 14399; 14401] ]
  ++ groupsOf 3 60 (sampleGaps 180 7)
  ++ groupsOf 6 30 (sampleGaps 180 11).

(** The sum of the clamped gaps of the consecutive pairs of [times]. *)
Fixpoint sumClampedGaps (times : list Z) : Q :=
  match times with
  | a :: ((b :: _) as rest) => (clampedGap a b + sumClampedGaps rest)%Q
  | _ => 0%Q
  end.

(** [r] is a multiple of one half nearest to [x]: the nearest one, or
    either of the two neighbours when [x] lies midway between them. *)
Definition nearestHalf (x r : Q) : Prop :=
  multipleOf (1 # 2) r /\ (x - (1 # 4) <= r)%Q /\ (r <= x + (1 # 4))%Q.

(** The estimate of a group of at least two commits, in the words of
    the specification. *)
Definition gapEstimate (commits : list CommitImport.GitCommit.t) (hours : Q)
  : Prop :=
  exists sorted r,
    Permutation sorted commits
    /\ StronglySorted
         (fun a b => CommitImport.GitCommit.date a <= CommitImport.GitCommit.date b)
         sorted
    /\ nearestHalf
         ((sumClampedGaps (List.map CommitImport.GitCommit.date sorted) + 30) / 60)
         r
    /\ (hours == Qmin r 8)%Q.

Definition sampleCommit (t : Z) (repo : string) : CommitImport.GitCommit.t :=
  CommitImport.GitCommit.mk "3f2a91c" "Fix week totals" t repo
                            ("acme/" ++ repo)%string "Dev" "".

Definition sampleRepo (name : string) (autoCalculate : bool) (defaultHours : Q)
  : CommitImport.Repo.t :=
  CommitImport.Repo.mk "1" name ("acme/" ++ name)%string "github" "token"
                       None None (Some "plan-1") (Some "bucket-1")
                       autoCalculate defaultHours.

(** [s] does not hold the character [sep]. *)
Definition freeOf (sep : ascii) (s : string) : bool :=
  forallb (fun c => negb (Ascii.eqb c sep)) (list_ascii_of_string s).

(** The message that [loadPlanData] leaves for the caller after a
    failure. *)
Definition failureMessage (err : App.Thrown) : string :=
  if App.isError err && JS.includes "429" (App.message err)
  then "Too many requests. Please wait a moment and try again."
  else "Failed to load tasks. Please try again.".

(** A remote fetch of [loadPlanData] fails with [err]: the first one,
    or the second one after the first one has resolved. *)
Definition fetchFails (graphService : App.GraphService) (planId : string)
    (err : App.Thrown) : Prop :=
  App.getBuckets graphService planId = App.Rejected err
  \/ (exists bs, App.getBuckets graphService planId = App.Resolved bs
                 /\ App.getMyTasks graphService 3 = App.Rejected err).

(** Sample data. *)
Definition sampleTask (id : string) (created : Z) : PlannerTask.t :=
  PlannerTask.mk id "Coding || [Dashboard] review" "plan-1" "bucket-1"
                 created None None None 0 5 [].

Definition sampleEntry (id : string) (t : Z) (h : Q) : TimeEntry.t :=
  TimeEntry.mk id t "Coding || [Dashboard] review" "" (JS.Num h)
               None None None None false None None 5 0 [] (sampleTask id t).

(** 2024-03-10 09:00, a Sunday. *)
Definition sampleTime : Z := 1710061200000.

(** 0000-12-31 09:00, the last day before the supported range, and
    0001-12-31 09:00, one year later. *)
Definition lastDayOfYearZero : Z := minSupported - msPerDay + 9 * msPerHour.
Definition lastDayOfYearOne : Z :=
  minSupported + 364 * msPerDay + 9 * msPerHour.

(** The entry of a task that carries a label named [constructor]. *)
Definition inheritedEntry : TimeEntry.t :=
  TimeParser.taskToTimeEntry
    (PlannerTask.mk "p" "Coding || [Dashboard] review" "plan-1" "bucket-1"
                    sampleTime None None None 0 5 [("constructor", true)])
    None.

Definition sampleEntries : list TimeEntry.t :=
  [ sampleEntry "a" sampleTime 1;
    sampleEntry "b" (sampleTime + 86400000) 2;
    sampleEntry "c" (sampleTime - 5) (1 # 2) ].

(** A view that shows the sample entries, and a remote collaborator
    that is rate-limited. *)
Definition sampleState : App.State :=
  App.mkState sampleEntries sampleEntries [] None false None.

Definition rateLimited : App.GraphService :=
  App.mkGraphService
    (fun _ => App.Rejected (App.mkThrown true "HTTP 429"))
    (fun _ => App.Rejected (App.mkThrown true "HTTP 429")).

End Spec.

Local Ltac zlia := cbv zeta in *; Z.to_euclidean_division_equations; lia.

(** * Properties *)

(** ** The stable sort *)

Section SortFacts.
Context {A : Type} (cmp : A -> A -> Z).

Lemma insert_Permutation (x : A) (l : list A) :
  Permutation (JS.insert cmp x l) (x :: l).
Proof.
  induction l as [|y l IH]; simpl.
  - apply Permutation_refl.
  - destruct (0 <? cmp x y).
    + apply perm_trans with (y :: x :: l).
      * apply perm_skip, IH.
      * apply perm_swap.
    + apply Permutation_refl.
Qed.

Lemma sort_Permutation (l : list A) : Permutation (JS.sort cmp l) l.
Proof.
  induction l as [|x l IH]; simpl.
  - apply perm_nil.
  - apply perm_trans with (x :: JS.sort cmp l).
    + apply insert_Permutation.
    + apply perm_skip, IH.
Qed.

Lemma sort_In (x : A) (l : list A) : In x (JS.sort cmp l) <-> In x l.
Proof.
  split; apply Permutation_in;
    [apply sort_Permutation | apply Permutation_sym, sort_Permutation].
Qed.

(** A comparator that never puts two elements both ways. *)
Hypothesis cmp_asym : forall a b, 0 < cmp a b -> cmp b a <= 0.

Lemma insert_Sorted (x : A) (l : list A) :
  Sorted (fun a b => cmp a b <= 0) l ->
  Sorted (fun a b => cmp a b <= 0) (JS.insert cmp x l).
Proof.
  induction l as [|y l IH]; simpl; intros Hs.
  - repeat constructor.
  - destruct (0 <? cmp x y) eqn:E.
    + apply Z.ltb_lt in E.
      apply Sorted_inv in Hs. destruct Hs as [Hs Hhd].
      constructor; [apply IH, Hs|].
      destruct l as [|z l]; simpl.
      * constructor. apply cmp_asym, E.
      * destruct (0 <? cmp x z); constructor.
        -- apply HdRel_inv in Hhd. exact Hhd.
        -- apply cmp_asym, E.
    + apply Z.ltb_ge in E. constructor; [exact Hs|].
      constructor. exact E.
Qed.

Lemma sort_Sorted (l : list A) :
  Sorted (fun a b => cmp a b <= 0) (JS.sort cmp l).
Proof.
  induction l as [|x l IH]; simpl.
  - constructor.
  - apply insert_Sorted, IH.
Qed.
End SortFacts.

(** ** The insertion-ordered map *)

Section MapFacts.
Context {V : Type}.
Implicit Types (m : JS.MapOf V) (k : string).

Lemma map_get_set_same k (v : V) m : JS.map_get k (JS.map_set k v m) = Some v.
Proof.
  induction m as [|[k' v'] m IH]; simpl.
  - now rewrite String.eqb_refl.
  - destruct (String.eqb k' k) eqn:E; simpl; rewrite E; auto.
Qed.

Lemma map_get_set_other k k' (v : V) m :
  k <> k' -> JS.map_get k (JS.map_set k' v m) = JS.map_get k m.
Proof.
  intros Hne. induction m as [|[k0 v0] m IH]; simpl.
  - destruct (String.eqb_spec k' k); congruence.
  - destruct (String.eqb_spec k0 k'); simpl.
    + subst k0. destruct (String.eqb_spec k' k); congruence.
    + destruct (String.eqb_spec k0 k); auto.
Qed.

Lemma map_has_In k m : JS.map_has k m = true <-> In k (JS.map_keys m).
Proof.
  unfold JS.map_has. induction m as [|[k' v'] m IH]; simpl.
  - split; [discriminate | tauto].
  - destruct (String.eqb_spec k' k).
    + split; auto.
    + rewrite IH. split; [auto | intros [H|H]; congruence].
Qed.

Lemma map_keys_set k (v : V) m :
  JS.map_keys (JS.map_set k v m)
  = if JS.map_has k m then JS.map_keys m else JS.map_keys m ++ [k].
Proof.
  unfold JS.map_has. induction m as [|[k' v'] m IH]; simpl.
  - reflexivity.
  - destruct (String.eqb_spec k' k); simpl.
    + reflexivity.
    + rewrite IH. now destruct (JS.map_get k m).
Qed.

Lemma map_get_In k (v : V) m : JS.map_get k m = Some v -> In (k, v) m.
Proof.
  induction m as [|[k' v'] m IH]; simpl; [discriminate|].
  destruct (String.eqb_spec k' k).
  - intros [= <-]. subst. now left.
  - auto.
Qed.
End MapFacts.

Section GroupFacts.
Context {A : Type} (key : A -> string).

Lemma map_get_push_same k (x : A) (m : JS.MapOf (list A)) :
  JS.map_get k (JS.map_push k x m)
  = Some (match JS.map_get k m with Some l => l ++ [x] | None => [x] end).
Proof.
  unfold JS.map_push, JS.map_has.
  destruct (JS.map_get k m) as [l|] eqn:E.
  - rewrite E. apply map_get_set_same.
  - rewrite map_get_set_same. apply map_get_set_same.
Qed.

Lemma map_get_push_other k k' (x : A) (m : JS.MapOf (list A)) :
  k <> k' -> JS.map_get k (JS.map_push k' x m) = JS.map_get k m.
Proof.
  intros Hne. unfold JS.map_push, JS.map_has.
  destruct (JS.map_get k' m) as [l|] eqn:E.
  - rewrite E. now apply map_get_set_other.
  - rewrite map_get_set_same.
    rewrite !map_get_set_other by assumption. reflexivity.
Qed.

Lemma map_keys_push k (x : A) (m : JS.MapOf (list A)) :
  JS.map_keys (JS.map_push k x m)
  = if JS.map_has k m then JS.map_keys m else JS.map_keys m ++ [k].
Proof.
  unfold JS.map_push.
  destruct (JS.map_has k m) eqn:E.
  - unfold JS.map_has in E. destruct (JS.map_get k m) eqn:G; [|discriminate].
    rewrite map_keys_set. unfold JS.map_has. now rewrite G.
  - rewrite map_get_set_same, !map_keys_set, E.
    unfold JS.map_has at 1. rewrite map_get_set_same. reflexivity.
Qed.

(** The [Map] built by a grouping loop holds, under each key, the
    elements of that key in their original order. *)
Lemma group_get (es : list A) (k : string) :
  JS.map_get k (fold_left (fun m e => JS.map_push (key e) e m) es [])
  = match filter (fun e => String.eqb (key e) k) es with
    | [] => None
    | l => Some l
    end.
Proof.
  induction es as [|e es IH] using rev_ind; [reflexivity|].
  rewrite fold_left_app, filter_app. simpl.
  destruct (String.eqb_spec (key e) k) as [->|Hne].
  - rewrite map_get_push_same, IH.
    destruct (filter _ es); reflexivity.
  - rewrite map_get_push_other by congruence.
    rewrite IH, app_nil_r. reflexivity.
Qed.

Lemma group_keys_In (es : list A) (k : string) :
  In k (JS.map_keys (fold_left (fun m e => JS.map_push (key e) e m) es []))
  <-> exists e, In e es /\ key e = k.
Proof.
  rewrite <- map_has_In. unfold JS.map_has. rewrite group_get.
  destruct (filter _ es) as [|e l] eqn:E.
  - split; [discriminate|]. intros (e & Hin & Hk). exfalso.
    assert (In e (filter (fun e => String.eqb (key e) k) es)) as Hf.
    { apply filter_In. split; [assumption|]. now apply String.eqb_eq. }
    rewrite E in Hf. destruct Hf.
  - split; [intros _|reflexivity].
    assert (In e (filter (fun e => String.eqb (key e) k) es)) as Hf
      by (rewrite E; now left).
    apply filter_In in Hf. destruct Hf as [Hin Hk].
    exists e. split; [assumption|]. now apply String.eqb_eq.
Qed.

Lemma group_keys_NoDup (es : list A) :
  NoDup (JS.map_keys (fold_left (fun m e => JS.map_push (key e) e m) es [])).
Proof.
  induction es as [|e es IH] using rev_ind; [constructor|].
  rewrite fold_left_app. simpl. rewrite map_keys_push.
  destruct (JS.map_has (key e) _) eqn:E; [assumption|].
  apply NoDup_app; [assumption | repeat constructor; intros [] |].
  intros k Hk [<-|[]]. apply map_has_In in Hk. congruence.
Qed.
End GroupFacts.

(** ** Code-unit order on strings *)

Lemma ascii_compare_refl (a : ascii) : Ascii.compare a a = Eq.
Proof. unfold Ascii.compare. apply N.compare_refl. Qed.

Lemma ascii_compare_trans (a b c : ascii) :
  Ascii.compare a b = Lt -> Ascii.compare b c = Lt -> Ascii.compare a c = Lt.
Proof.
  unfold Ascii.compare. rewrite !N.compare_lt_iff. apply N.lt_trans.
Qed.

Lemma string_compare_refl (s : string) : String.compare s s = Eq.
Proof.
  induction s as [|a s IH]; simpl; [reflexivity|].
  now rewrite ascii_compare_refl.
Qed.

Lemma string_compare_trans (s1 s2 s3 : string) :
  String.compare s1 s2 = Lt -> String.compare s2 s3 = Lt ->
  String.compare s1 s3 = Lt.
Proof.
  revert s2 s3.
  induction s1 as [|a s1 IH]; intros [|b s2] [|c s3]; simpl;
    try discriminate; try reflexivity.
  destruct (Ascii.compare a b) eqn:Eab; try discriminate;
    destruct (Ascii.compare b c) eqn:Ebc; try discriminate; intros H1 H2.
  - apply Ascii.compare_eq_iff in Eab, Ebc. subst.
    rewrite ascii_compare_refl. eapply IH; eassumption.
  - apply Ascii.compare_eq_iff in Eab. subst. now rewrite Ebc.
  - apply Ascii.compare_eq_iff in Ebc. subst. now rewrite Eab.
  - now rewrite (ascii_compare_trans _ _ _ Eab Ebc).
Qed.

Lemma string_cmp_asym (a b : string) :
  0 < JS.string_cmp a b -> JS.string_cmp b a <= 0.
Proof.
  unfold JS.string_cmp. rewrite (String.compare_antisym a b).
  destruct (String.compare b a); simpl; lia.
Qed.

Lemma string_cmp_le (a b : string) :
  JS.string_cmp a b <= 0 -> a = b \/ String.compare a b = Lt.
Proof.
  unfold JS.string_cmp. destruct (String.compare a b) eqn:E; try lia.
  - left. now apply String.compare_eq_iff.
  - now right.
Qed.

(** Sorting distinct keys puts them in strictly ascending order. *)
Lemma sort_strings_strict (l : list string) :
  NoDup l ->
  StronglySorted (fun a b => String.compare a b = Lt) (JS.sort_strings l).
Proof.
  intros Hnd.
  assert (NoDup (JS.sort_strings l)) as Hnd'.
  { eapply Permutation_NoDup; [|exact Hnd].
    apply Permutation_sym, sort_Permutation. }
  assert (StronglySorted (fun a b => JS.string_cmp a b <= 0) (JS.sort_strings l))
    as Hs.
  { apply Sorted_StronglySorted.
    - intros x y z Hxy Hyz.
      destruct (string_cmp_le _ _ Hxy) as [->|Hlt1]; [assumption|].
      destruct (string_cmp_le _ _ Hyz) as [<-|Hlt2]; [assumption|].
      unfold JS.string_cmp.
      rewrite (string_compare_trans _ _ _ Hlt1 Hlt2). lia.
    - apply sort_Sorted, string_cmp_asym. }
  induction Hs as [|a l' Hs IH Hall]; constructor.
  - apply IH. now inversion Hnd'.
  - inversion Hnd' as [|? ? Hnotin _]; subst.
    rewrite Forall_forall in *. intros x Hx.
    destruct (string_cmp_le _ _ (Hall x Hx)) as [->|Hlt]; [contradiction|assumption].
Qed.

(** ** Callbacks that may throw *)

Lemma traverse_Some {A B : Type} (f : A -> option B) (l : list A) (r : list B) :
  JS.traverse f l = Some r -> Forall2 (fun x y => f x = Some y) l r.
Proof.
  revert r. induction l as [|x l IH]; simpl; intros r H.
  - injection H as <-. constructor.
  - destruct (f x) as [y|] eqn:E; [|discriminate].
    destruct (JS.traverse f l) as [ys|]; [|discriminate].
    injection H as <-. constructor; auto.
Qed.

Lemma traverse_total {A B : Type} (f : A -> option B) (l : list A) :
  Forall (fun x => f x <> None) l -> exists r, JS.traverse f l = Some r.
Proof.
  induction 1 as [|x l Hx _ IH]; simpl.
  - now exists [].
  - destruct (f x) as [y|]; [|congruence].
    destruct IH as [ys ->]. now exists (y :: ys).
Qed.


(** ** The calendar *)

Import DateFns.

Lemma yearOfDays_spec (n : Z) :
  daysBeforeYear (yearOfDays n) <= n < daysBeforeYear (yearOfDays n + 1).
Proof.
  unfold yearOfDays.
  set (y0 := 400 * n / 146097 + 1).
  assert (146097 * (y0 - 1) <= 400 * n < 146097 * y0) as Hy0
    by (unfold y0; zlia).
  clearbody y0.
  destruct (n <? daysBeforeYear y0) eqn:E1;
    [apply Z.ltb_lt in E1 | apply Z.ltb_ge in E1].
  - replace (y0 - 1 + 1) with y0 by ring. split; [|assumption].
    unfold daysBeforeYear in *. zlia.
  - destruct (daysBeforeYear (y0 + 1) <=? n) eqn:E2;
      [apply Z.leb_le in E2 | apply Z.leb_gt in E2].
    + split; [assumption|]. unfold daysBeforeYear in *. zlia.
    + split; assumption.
Qed.

Lemma daysBeforeYear_succ (y : Z) :
  daysBeforeYear (y + 1)
  = daysBeforeYear y + 365 + (if isLeapYear y then 1 else 0).
Proof.
  unfold daysBeforeYear, isLeapYear.
  replace (y + 1 - 1) with y by ring.
  destruct (y mod 4 =? 0) eqn:E4; destruct (y mod 100 =? 0) eqn:E100;
    destruct (y mod 400 =? 0) eqn:E400; cbn [andb orb negb];
    rewrite ?Z.eqb_eq, ?Z.eqb_neq in *; zlia.
Qed.

Lemma daysBeforeYear_mono (y1 y2 : Z) :
  y1 <= y2 -> daysBeforeYear y1 <= daysBeforeYear y2.
Proof. unfold daysBeforeYear. zlia. Qed.

Lemma daysBeforeMonth_bounds (leap : bool) (m : Z) :
  1 <= m <= 12 ->
  0 <= daysBeforeMonth leap m
  /\ daysBeforeMonth leap m + 28 <= daysBeforeMonth leap (m + 1)
  /\ daysBeforeMonth leap (m + 1) <= daysBeforeMonth leap m + 31
  /\ daysBeforeMonth leap (m + 1) <= 365 + (if leap then 1 else 0).
Proof.
  intros Hm.
  assert (m = 1 \/ m = 2 \/ m = 3 \/ m = 4 \/ m = 5 \/ m = 6 \/ m = 7
          \/ m = 8 \/ m = 9 \/ m = 10 \/ m = 11 \/ m = 12) as Hcases by lia.
  destruct leap;
    repeat (destruct Hcases as [->|Hcases]); try subst m;
    vm_compute; repeat split; discriminate.
Qed.

Lemma daysBeforeMonth_mono (leap : bool) (m1 m2 : Z) :
  1 <= m1 -> m1 <= m2 -> m2 <= 13 ->
  daysBeforeMonth leap m1 <= daysBeforeMonth leap m2.
Proof.
  intros H1 H12 H2.
  replace m2 with (m1 + Z.of_nat (Z.to_nat (m2 - m1))) by lia.
  assert (m1 + Z.of_nat (Z.to_nat (m2 - m1)) <= 13) as Hb by lia.
  induction (Z.to_nat (m2 - m1)) as [|k IH].
  - replace (m1 + Z.of_nat 0) with m1 by lia. lia.
  - rewrite Nat2Z.inj_succ in *.
    replace (m1 + Z.succ (Z.of_nat k)) with (m1 + Z.of_nat k + 1) by lia.
    pose proof (daysBeforeMonth_bounds leap (m1 + Z.of_nat k)). lia.
Qed.

Lemma findMonth_spec (leap : bool) (doy : Z) :
  0 <= doy < 365 + (if leap then 1 else 0) ->
  let m := findMonth [1; 2; 3; 4; 5; 6; 7; 8; 9; 10; 11] leap doy in
  1 <= m <= 12
  /\ daysBeforeMonth leap m <= doy < daysBeforeMonth leap (m + 1).
Proof.
  intros Hdoy. cbv [findMonth].
  repeat match goal with
         | |- context [?a <? ?b] =>
             let E := fresh "E" in
             destruct (a <? b) eqn:E;
             [apply Z.ltb_lt in E | apply Z.ltb_ge in E]
         end;
    destruct leap; cbv [daysBeforeMonth nth cumulativeDays andb Z.to_nat
                        Z.sub Z.add Z.opp Z.pos_sub Z.ltb Z.compare Pos.compare
                        Pos.compare_cont Pos.to_nat Pos.iter_op Pos.succ
                        Pos.add Pos.pred_double Z.succ_double Z.pred_double
                        Z.double Nat.add Init.Nat.add] in *;
    lia.
Qed.

Lemma dayOfCivil_civilOfDay (d : Z) : dayOfCivil (civilOfDay d) = d.
Proof. cbv [dayOfCivil civilOfDay year month day]. ring. Qed.

Lemma civilOfDay_valid (d : Z) : validateDate (civilOfDay d) = true.
Proof.
  cbv [validateDate civilOfDay daysInMonth year month day].
  set (n := d + epochDays).
  pose proof (yearOfDays_spec n) as Hy.
  rewrite daysBeforeYear_succ in Hy.
  set (y := yearOfDays n) in *.
  pose proof (findMonth_spec (isLeapYear y) (n - daysBeforeYear y)) as Hm.
  cbv zeta in Hm.
  set (m := findMonth _ _ _) in *.
  destruct Hm as [Hm1 Hm2]; [destruct (isLeapYear y); lia|].
  rewrite !andb_true_iff, !Z.leb_le. lia.
Qed.

Import DateFns.

Lemma dayOfCivil_lt (c1 c2 : CivilDate) :
  validateDate c1 = true -> validateDate c2 = true ->
  Spec.civilBefore c1 c2 -> dayOfCivil c1 < dayOfCivil c2.
Proof.
  unfold validateDate, daysInMonth, Spec.civilBefore, dayOfCivil.
  destruct c1 as [y1 m1 d1], c2 as [y2 m2 d2]. cbn [year month day].
  rewrite !andb_true_iff, !Z.leb_le.
  intros [[[Hm1 Hm1'] Hd1] Hd1'] [[[Hm2 Hm2'] Hd2] Hd2'] Hlt.
  pose proof (daysBeforeMonth_bounds (isLeapYear y1) m1) as B1.
  pose proof (daysBeforeMonth_bounds (isLeapYear y2) m2) as B2.
  destruct Hlt as [Hy | [[<- Hm] | [<- [<- Hd]]]].
  - pose proof (daysBeforeYear_mono (y1 + 1) y2) as Hmono.
    rewrite daysBeforeYear_succ in Hmono. lia.
  - pose proof (daysBeforeMonth_mono (isLeapYear y1) (m1 + 1) m2). lia.
  - lia.
Qed.

(** *** Rendering and reading back *)

Lemma list_ascii_of_string_app (s1 s2 : string) :
  list_ascii_of_string (s1 ++ s2)
  = list_ascii_of_string s1 ++ list_ascii_of_string s2.
Proof. induction s1 as [|a s1 IH]; simpl; congruence. Qed.

Lemma list_ascii_of_string_length (s : string) :
  List.length (list_ascii_of_string s) = String.length s.
Proof. induction s as [|a s IH]; simpl; congruence. Qed.

Lemma allFrom_spec (P : Z -> bool) (count : nat) (start : Z) :
  Spec.allFrom P count start = true ->
  forall z, start <= z < start + Z.of_nat count -> P z = true.
Proof.
  revert start. induction count as [|count IH]; intros start H z Hz; [lia|].
  cbn [Spec.allFrom] in H. apply andb_true_iff in H. destruct H as [H0 H].
  destruct (Z.eq_dec z start) as [->|Hne]; [assumption|].
  apply (IH (start + 1) H). lia.
Qed.

Lemma rendersAs_year (y : Z) : 0 <= y < 10000 -> Spec.rendersAs 4 y = true.
Proof.
  intros Hy.
  apply (allFrom_spec (Spec.rendersAs 4) (Z.to_nat 10000) 0); [|lia].
  vm_compute. reflexivity.
Qed.

Lemma rendersAs_two (n : Z) : 0 <= n < 100 -> Spec.rendersAs 2 n = true.
Proof.
  intros Hn.
  apply (allFrom_spec (Spec.rendersAs 2) (Z.to_nat 100) 0); [|lia].
  vm_compute. reflexivity.
Qed.

Lemma rendersAs_spec (width : nat) (n : Z) :
  Spec.rendersAs width n = true ->
  digitsValue 0 (list_ascii_of_string (addLeadingZeros n width)) = Some n
  /\ List.length (list_ascii_of_string (addLeadingZeros n width)) = width.
Proof.
  unfold Spec.rendersAs. cbv zeta.
  destruct (digitsValue 0 _) as [v|]; [|discriminate].
  rewrite andb_true_iff, Z.eqb_eq, Nat.eqb_eq, list_ascii_of_string_length.
  intros [-> ->]. auto.
Qed.

Lemma civil_supported (t : Z) :
  Spec.supported t ->
  1 <= year (civil t) <= 9999
  /\ 1 <= month (civil t) <= 12 /\ 1 <= day (civil t) <= 31.
Proof.
  unfold Spec.supported, Spec.minSupported, Spec.maxSupported. intros Ht.
  pose proof (civilOfDay_valid (dayNumber t)) as Hv.
  unfold civil. revert Hv.
  cbv [validateDate civilOfDay daysInMonth year month day].
  assert (0 <= dayNumber t + epochDays < 3652059) as Hn
    by (unfold dayNumber, msPerDay, epochDays; zlia).
  set (n := dayNumber t + epochDays) in *.
  pose proof (yearOfDays_spec n) as Hy.
  set (y := yearOfDays n) in *.
  set (m := findMonth _ _ _).
  rewrite !andb_true_iff, !Z.leb_le. intros [[[Hm1 Hm2] Hd1] Hd2].
  pose proof (daysBeforeMonth_bounds (isLeapYear y) m).
  split; [|lia].
  split.
  - destruct (Z_lt_le_dec y 1) as [Hlt|]; [|assumption].
    pose proof (daysBeforeYear_mono (y + 1) 1).
    change (daysBeforeYear 1) with 0 in *. lia.
  - destruct (Z_lt_le_dec 9999 y) as [Hlt|]; [|assumption].
    pose proof (daysBeforeYear_mono 10000 y).
    change (daysBeforeYear 10000) with 3652059 in *. lia.
Qed.

Lemma parseISO_format_ymd (t : Z) :
  Spec.supported t -> parseISO (format_ymd t) = Some (startOfDay t).
Proof.
  intros Ht. destruct (civil_supported t Ht) as (Hy & Hm & Hd).
  pose proof (civilOfDay_valid (dayNumber t)) as Hv.
  pose proof (dayOfCivil_civilOfDay (dayNumber t)) as Hrt.
  unfold parseISO, format_ymd, format_yyyy, format_MM, format_dd. cbv zeta.
  fold (civil t) in Hv, Hrt.
  destruct (civil t) as [y m d]. cbn [year month day] in *.
  replace (0 <? y) with true by (symmetry; apply Z.ltb_lt; lia).
  destruct (rendersAs_spec 4 y) as [Vy Ly]; [apply rendersAs_year; lia|].
  destruct (rendersAs_spec 2 m) as [Vm Lm]; [apply rendersAs_two; lia|].
  destruct (rendersAs_spec 2 d) as [Vd Ld]; [apply rendersAs_two; lia|].
  rewrite !list_ascii_of_string_app.
  destruct (list_ascii_of_string (addLeadingZeros y 4))
    as [|y1 [|y2 [|y3 [|y4 [|]]]]]; try discriminate.
  destruct (list_ascii_of_string (addLeadingZeros m 2))
    as [|m1 [|m2 [|]]]; try discriminate.
  destruct (list_ascii_of_string (addLeadingZeros d 2))
    as [|d1 [|d2 [|]]]; try discriminate.
  cbn [list_ascii_of_string app].
  rewrite Vy, Vm, Vd, Hv. cbn [Ascii.eqb Bool.eqb andb].
  unfold startOfDay. now rewrite Hrt.
Qed.

(** *** Keys that parse are ordered like their dates *)

Lemma digitValue_range (c : ascii) (v : Z) :
  digitValue c = Some v -> 0 <= v <= 9 /\ v = Z.of_N (N_of_ascii c) - 48.
Proof.
  unfold digitValue. cbv zeta.
  destruct ((48 <=? _) && (_ <=? 57)) eqn:E; [|discriminate].
  apply andb_true_iff in E. rewrite !Z.leb_le in E.
  intros [= <-]. lia.
Qed.

Lemma digitValue_compare (a b : ascii) (va vb : Z) :
  digitValue a = Some va -> digitValue b = Some vb ->
  match Ascii.compare a b with
  | Lt => va < vb
  | Eq => va = vb
  | Gt => vb < va
  end.
Proof.
  intros Ha Hb.
  apply digitValue_range in Ha, Hb. destruct Ha as [_ ->], Hb as [_ ->].
  unfold Ascii.compare.
  destruct (N.compare_spec (N_of_ascii a) (N_of_ascii b)); lia.
Qed.

Lemma digitsValue_cons (acc : Z) (c : ascii) (l : list ascii) :
  digitsValue acc (c :: l)
  = match digitValue c with
    | Some v => digitsValue (10 * acc + v) l
    | None => None
    end.
Proof. reflexivity. Qed.

Lemma digitsValue_nil (acc : Z) : digitsValue acc [] = Some acc.
Proof. reflexivity. Qed.

Lemma Some_eq_inv {A : Type} (x y : A) : Some x = Some y -> x = y.
Proof. congruence. Qed.

Lemma digitsValue2_inv (a b : ascii) (n : Z) :
  digitsValue 0 [a; b] = Some n ->
  exists va vb, digitValue a = Some va /\ digitValue b = Some vb
                /\ n = 10 * va + vb.
Proof.
  rewrite digitsValue_cons.
  destruct (digitValue a) as [va|]; [|discriminate].
  rewrite digitsValue_cons.
  destruct (digitValue b) as [vb|]; [|discriminate].
  rewrite digitsValue_nil.
  intros H. apply Some_eq_inv in H. exists va, vb. repeat split; lia.
Qed.

Lemma digitsValue4_inv (a b c d : ascii) (n : Z) :
  digitsValue 0 [a; b; c; d] = Some n ->
  exists va vb vc vd,
    digitValue a = Some va /\ digitValue b = Some vb
    /\ digitValue c = Some vc /\ digitValue d = Some vd
    /\ n = 1000 * va + 100 * vb + 10 * vc + vd.
Proof.
  rewrite digitsValue_cons.
  destruct (digitValue a) as [va|]; [|discriminate].
  rewrite digitsValue_cons.
  destruct (digitValue b) as [vb|]; [|discriminate].
  rewrite digitsValue_cons.
  destruct (digitValue c) as [vc|]; [|discriminate].
  rewrite digitsValue_cons.
  destruct (digitValue d) as [vd|]; [|discriminate].
  rewrite digitsValue_nil.
  intros H. apply Some_eq_inv in H. exists va, vb, vc, vd. repeat split; lia.
Qed.

(** What a successful [parseISO] says about its argument. *)
Lemma parseISO_inv (s : string) (t : Z) :
  parseISO s = Some t ->
  exists y1 y2 y3 y4 m1 m2 d1 d2 y m d,
    s = String y1 (String y2 (String y3 (String y4 (String "-"
          (String m1 (String m2 (String "-" (String d1 (String d2 "")))))))))
    /\ digitsValue 0 [y1; y2; y3; y4] = Some y
    /\ digitsValue 0 [m1; m2] = Some m
    /\ digitsValue 0 [d1; d2] = Some d
    /\ validateDate (mkCivil y m d) = true
    /\ t = dayOfCivil (mkCivil y m d) * msPerDay.
Proof.
  unfold parseISO.
  destruct s as [|y1 [|y2 [|y3 [|y4 [|s1 [|m1 [|m2 [|s2 [|d1 [|d2 [|]]]]]]]]]]];
    cbn [list_ascii_of_string]; try discriminate.
  destruct (digitsValue 0 [y1; y2; y3; y4]) as [y|] eqn:Ey; [|discriminate].
  destruct (digitsValue 0 [m1; m2]) as [m|] eqn:Em; [|discriminate].
  destruct (digitsValue 0 [d1; d2]) as [d|] eqn:Ed; [|discriminate].
  cbv zeta.
  destruct (Ascii.eqb_spec s1 "-"); [|discriminate].
  destruct (Ascii.eqb_spec s2 "-"); [|discriminate].
  cbn [andb].
  destruct (validateDate (mkCivil y m d)) eqn:Hv; [|discriminate].
  intros [= <-]. subst.
  exists y1, y2, y3, y4, m1, m2, d1, d2, y, m, d.
  repeat split; assumption || reflexivity.
Qed.

Lemma parseISO_midnight (s : string) (t : Z) :
  parseISO s = Some t -> startOfDay t = t.
Proof.
  intros H. apply parseISO_inv in H.
  destruct H as (y1 & y2 & y3 & y4 & m1 & m2 & d1 & d2 & y & m & d & H).
  destruct H as (_ & _ & _ & _ & _ & ->).
  unfold startOfDay, dayNumber, msPerDay. zlia.
Qed.

Lemma parseISO_lt (s1 s2 : string) (t1 t2 : Z) :
  parseISO s1 = Some t1 -> parseISO s2 = Some t2 ->
  String.compare s1 s2 = Lt -> t1 < t2.
Proof.
  intros H1 H2 Hlt.
  apply parseISO_inv in H1, H2.
  destruct H1 as (a1 & a2 & a3 & a4 & a5 & a6 & a7 & a8 & ya & ma & da & H1).
  destruct H1 as (-> & Hya & Hma & Hda & Hva & ->).
  destruct H2 as (b1 & b2 & b3 & b4 & b5 & b6 & b7 & b8 & yb & mb & db & H2).
  destruct H2 as (-> & Hyb & Hmb & Hdb & Hvb & ->).
  apply digitsValue4_inv in Hya, Hyb. apply digitsValue2_inv in Hma, Hmb, Hda, Hdb.
  destruct Hya as (u1 & u2 & u3 & u4 & U1 & U2 & U3 & U4 & ->).
  destruct Hyb as (v1 & v2 & v3 & v4 & V1 & V2 & V3 & V4 & ->).
  destruct Hma as (u5 & u6 & U5 & U6 & ->).
  destruct Hmb as (v5 & v6 & V5 & V6 & ->).
  destruct Hda as (u7 & u8 & U7 & U8 & ->).
  destruct Hdb as (v7 & v8 & V7 & V8 & ->).
  pose proof (digitValue_compare _ _ _ _ U1 V1) as C1.
  pose proof (digitValue_compare _ _ _ _ U2 V2) as C2.
  pose proof (digitValue_compare _ _ _ _ U3 V3) as C3.
  pose proof (digitValue_compare _ _ _ _ U4 V4) as C4.
  pose proof (digitValue_compare _ _ _ _ U5 V5) as C5.
  pose proof (digitValue_compare _ _ _ _ U6 V6) as C6.
  pose proof (digitValue_compare _ _ _ _ U7 V7) as C7.
  pose proof (digitValue_compare _ _ _ _ U8 V8) as C8.
  apply digitValue_range in U1, U2, U3, U4, U5, U6, U7, U8.
  apply digitValue_range in V1, V2, V3, V4, V5, V6, V7, V8.
  assert (Spec.civilBefore
            (mkCivil (1000 * u1 + 100 * u2 + 10 * u3 + u4) (10 * u5 + u6)
                     (10 * u7 + u8))
            (mkCivil (1000 * v1 + 100 * v2 + 10 * v3 + v4) (10 * v5 + v6)
                     (10 * v7 + v8))) as Hbefore.
  { unfold Spec.civilBefore. cbn [year month day].
    cbn [String.compare] in Hlt. rewrite !ascii_compare_refl in Hlt.
    destruct (Ascii.compare a1 b1); [|lia|discriminate].
    destruct (Ascii.compare a2 b2); [|lia|discriminate].
    destruct (Ascii.compare a3 b3); [|lia|discriminate].
    destruct (Ascii.compare a4 b4); [|lia|discriminate].
    destruct (Ascii.compare a5 b5); [|lia|discriminate].
    destruct (Ascii.compare a6 b6); [|lia|discriminate].
    destruct (Ascii.compare a7 b7); [|lia|discriminate].
    destruct (Ascii.compare a8 b8); [discriminate|lia|discriminate]. }
  pose proof (dayOfCivil_lt _ _ Hva Hvb Hbefore). unfold msPerDay. lia.
Qed.

(** The two days that follow the supported range are rendered with a
    five-digit year, which [parseISO] does not read. *)
Lemma parseISO_format_ymd_after (t : Z) :
  Spec.maxSupported <= t < Spec.maxSupported + 2 * msPerDay ->
  parseISO (format_ymd t) = None.
Proof.
  unfold Spec.maxSupported, msPerDay. intros Ht.
  assert (dayNumber t = 2932897 \/ dayNumber t = 2932898) as Hd
    by (unfold dayNumber, msPerDay; zlia).
  unfold format_ymd, civil. destruct Hd as [-> | ->]; vm_compute; reflexivity.
Qed.

(** ** Partition of a list by a key *)

Section Partition.
Context {A K : Type} (eqb : K -> K -> bool).
Hypothesis eqb_spec : forall x y, reflect (x = y) (eqb x y).
Variable key : A -> K.

Lemma filter_key_absent (k : K) (l : list A) :
  (forall e, In e l -> key e <> k) -> filter (fun e => eqb (key e) k) l = [].
Proof.
  induction l as [|e l IH]; simpl; intros H; [reflexivity|].
  destruct (eqb_spec (key e) k) as [E|_].
  - exfalso. apply (H e); auto.
  - apply IH. intros e' He'. apply H. now right.
Qed.

Lemma partition_Permutation (ks : list K) (l : list A) :
  NoDup ks -> (forall e, In e l -> In (key e) ks) ->
  Permutation (List.concat (List.map (fun k => filter (fun e => eqb (key e) k) l) ks)) l.
Proof.
  intros Hnd. induction l as [|e l IH]; intros Hin.
  - clear. induction ks as [|k ks IHk]; simpl; [constructor | exact IHk].
  - assert (In (key e) ks) as Hk by (apply Hin; now left).
    apply in_split in Hk. destruct Hk as (l1 & l2 & Hks).
    assert (~ In (key e) l1 /\ ~ In (key e) l2) as [Hn1 Hn2].
    { rewrite Hks in Hnd. apply NoDup_remove_2 in Hnd.
      rewrite in_app_iff in Hnd. tauto. }
    specialize (IH (fun e' He' => Hin e' (or_intror He'))).
    rewrite Hks in IH |- *.
    rewrite map_app, concat_app in IH |- *. cbn [List.map List.concat] in IH |- *.
    assert (forall ks', ~ In (key e) ks' ->
              List.map (fun k => filter (fun e0 => eqb (key e0) k) (e :: l)) ks'
              = List.map (fun k => filter (fun e0 => eqb (key e0) k) l) ks')
      as Hsame.
    { intros ks' Hn. apply map_ext_in. intros k Hk. cbn [filter].
      destruct (eqb_spec (key e) k); [subst; contradiction|reflexivity]. }
    rewrite (Hsame l1 Hn1), (Hsame l2 Hn2).
    cbn [filter]. destruct (eqb_spec (key e) (key e)) as [_|N]; [|congruence].
    apply Permutation_sym. eapply perm_trans.
    + apply perm_skip, Permutation_sym, IH.
    + apply Permutation_middle.
Qed.
End Partition.

(** ** Sums of hours *)

Lemma isNumber_comp (v : JS.value) (q q' : Q) :
  (q == q')%Q -> Spec.isNumber v q -> Spec.isNumber v q'.
Proof. destruct v; cbn; [intros E H; now rewrite H|auto..]. Qed.

Lemma isNumber_Num (v : JS.value) (q : Q) :
  Spec.isNumber v q -> exists x, v = JS.Num x /\ (x == q)%Q.
Proof. destruct v; cbn; [eauto|intros []..]. Qed.

Lemma numericHours_incl (l l' : list TimeEntry.t) :
  (forall e, In e l -> In e l') -> Spec.numericHours l' -> Spec.numericHours l.
Proof.
  unfold Spec.numericHours. rewrite !Forall_forall. auto.
Qed.

(** The total of entries whose hours are numbers is the sum of these
    numbers. *)
Lemma sumHours_numeric (l : list TimeEntry.t) :
  Spec.numericHours l ->
  Spec.isNumber (TimeParser.sumHours l) (Spec.sumQ (List.map Spec.hoursOf l)).
Proof.
  unfold TimeParser.sumHours. intros Hl.
  assert (forall acc,
             Spec.isNumber
               (fold_left (fun sum e => JS.add sum (TimeEntry.hours e)) l
                          (JS.Num acc))
               (acc + Spec.sumQ (List.map Spec.hoursOf l))) as H.
  { induction Hl as [|e l (q & He) Hl IH]; intros acc.
    - cbn. ring.
    - cbn [fold_left List.map]. rewrite He. cbn [JS.add].
      eapply isNumber_comp; [|apply (IH (acc + q)%Q)].
      unfold Spec.sumQ. cbn [fold_right].
      assert (Spec.hoursOf e = q) as -> by (unfold Spec.hoursOf; now rewrite He).
      ring. }
  eapply isNumber_comp; [|apply H]. ring.
Qed.

(** One entry whose hours are no number turns the total into a
    string. *)
Lemma sumHours_not_numeric (l : list TimeEntry.t) :
  ~ Spec.numericHours l -> exists s, TimeParser.sumHours l = JS.Str s.
Proof.
  unfold TimeParser.sumHours. intros Hl.
  assert (forall l s, exists s',
             fold_left (fun sum e => JS.add sum (TimeEntry.hours e)) l (JS.Str s)
             = JS.Str s') as Hstr.
  { clear. induction l as [|e l IH]; intros s; cbn [fold_left]; [eauto|].
    apply IH. }
  assert (forall acc, exists s,
             fold_left (fun sum e => JS.add sum (TimeEntry.hours e)) l
                       (JS.Num acc) = JS.Str s) as H.
  { induction l as [|e l IH]; intros acc.
    - elim Hl. constructor.
    - cbn [fold_left]. destruct (TimeEntry.hours e) as [q|name|s] eqn:He.
      + cbn [JS.add]. apply IH. intros Hn. apply Hl.
        constructor; [eauto|exact Hn].
      + apply Hstr.
      + apply Hstr. }
  apply H.
Qed.

Lemma sumQ_app (l1 l2 : list Q) :
  (Spec.sumQ (l1 ++ l2) == Spec.sumQ l1 + Spec.sumQ l2)%Q.
Proof.
  induction l1 as [|x l1 IH]; simpl.
  - ring.
  - rewrite IH. ring.
Qed.

Lemma sumQ_Permutation (l1 l2 : list Q) :
  Permutation l1 l2 -> (Spec.sumQ l1 == Spec.sumQ l2)%Q.
Proof.
  induction 1; simpl.
  - reflexivity.
  - now rewrite IHPermutation.
  - ring.
  - now rewrite IHPermutation1.
Qed.

Lemma sumQ_concat (ls : list (list Q)) :
  (Spec.sumQ (List.concat ls) == Spec.sumQ (List.map Spec.sumQ ls))%Q.
Proof.
  induction ls as [|l ls IH]; simpl.
  - reflexivity.
  - now rewrite sumQ_app, IH.
Qed.

(** ** Days *)

Lemma dayNumber_startOfDay (t : Z) : dayNumber (startOfDay t) = dayNumber t.
Proof. unfold startOfDay, dayNumber, msPerDay. zlia. Qed.

Lemma startOfDay_idem (t : Z) : startOfDay (startOfDay t) = startOfDay t.
Proof. unfold startOfDay at 1 3. now rewrite dayNumber_startOfDay. Qed.

Lemma format_ymd_startOfDay (t : Z) : format_ymd (startOfDay t) = format_ymd t.
Proof. unfold format_ymd, civil. now rewrite dayNumber_startOfDay. Qed.

Lemma supported_startOfDay (t : Z) :
  Spec.supported t -> Spec.supported (startOfDay t).
Proof.
  unfold Spec.supported, Spec.minSupported, Spec.maxSupported,
    startOfDay, dayNumber, msPerDay.
  zlia.
Qed.

(** Within the supported range, the key of a date names its day. *)
Lemma format_ymd_inj (t1 t2 : Z) :
  Spec.supported t1 -> Spec.supported t2 ->
  format_ymd t1 = format_ymd t2 <-> startOfDay t1 = startOfDay t2.
Proof.
  intros H1 H2. split; intros H.
  - apply parseISO_format_ymd in H1, H2. congruence.
  - rewrite <- (format_ymd_startOfDay t1), <- (format_ymd_startOfDay t2).
    now rewrite H.
Qed.

(** ** Grouping by day *)

Lemma Forall2_StronglySorted {A B : Type} (R : A -> B -> Prop)
    (P : A -> A -> Prop) (Q : B -> B -> Prop) (l1 : list A) (l2 : list B) :
  (forall a1 a2 b1 b2, R a1 b1 -> R a2 b2 -> P a1 a2 -> Q b1 b2) ->
  Forall2 R l1 l2 -> StronglySorted P l1 -> StronglySorted Q l2.
Proof.
  intros HPQ HR. induction HR as [|a b l1 l2 Hab HR IH]; intros Hs.
  - constructor.
  - apply StronglySorted_inv in Hs. destruct Hs as [Hs Hall].
    constructor; [apply IH, Hs|].
    clear IH Hs. induction HR as [|a' b' l1 l2 Hab' HR IH]; constructor.
    + inversion Hall; subst. eapply HPQ; eassumption.
    + apply IH. now inversion Hall.
Qed.

Lemma Forall2_In_r {A B : Type} (R : A -> B -> Prop) (l1 : list A)
    (l2 : list B) (b : B) :
  Forall2 R l1 l2 -> In b l2 -> exists a, In a l1 /\ R a b.
Proof.
  induction 1 as [|a' b' l1 l2 Hab HR IH]; intros Hin; [destruct Hin|].
  destruct Hin as [<-|Hin].
  - exists a'. split; [now left|assumption].
  - destruct (IH Hin) as (a & Ha & Hr). exists a. split; [now right|assumption].
Qed.

Lemma Forall2_In_l {A B : Type} (R : A -> B -> Prop) (l1 : list A)
    (l2 : list B) (a : A) :
  Forall2 R l1 l2 -> In a l1 -> exists b, In b l2 /\ R a b.
Proof.
  induction 1 as [|a' b' l1 l2 Hab HR IH]; intros Hin; [destruct Hin|].
  destruct Hin as [<-|Hin].
  - exists b'. split; [now left|assumption].
  - destruct (IH Hin) as (b & Hb & Hr). exists b. split; [now right|assumption].
Qed.

(** The keys of the day map, sorted: distinct, strictly ascending, and
    exactly the keys of the entries. *)
Lemma sorted_keys_spec {A : Type} (key : A -> string) (es : list A) :
  let ks := JS.sort_strings
              (JS.map_keys (fold_left (fun m e => JS.map_push (key e) e m) es []))
  in
  StronglySorted (fun a b => String.compare a b = Lt) ks
  /\ NoDup ks
  /\ forall k, In k ks <-> exists e, In e es /\ key e = k.
Proof.
  cbv zeta. split; [|split].
  - apply sort_strings_strict, group_keys_NoDup.
  - eapply Permutation_NoDup; [|apply (group_keys_NoDup key es)].
    apply Permutation_sym, sort_Permutation.
  - intros k. unfold JS.sort_strings. rewrite sort_In. apply group_keys_In.
Qed.

Lemma group_get_or_empty {A : Type} (key : A -> string) (es : list A)
    (k : string) :
  match JS.map_get k (fold_left (fun m e => JS.map_push (key e) e m) es []) with
  | Some l => l
  | None => []
  end = filter (fun e => String.eqb (key e) k) es.
Proof. rewrite group_get. now destruct (filter _ es). Qed.

(** What [groupByDay] returns, key by key. *)
Lemma groupByDay_inv (entries : list TimeEntry.t) (days : list DailyTimesheet.t) :
  TimeParser.groupByDay entries = Some days ->
  Forall2
    (fun k d =>
       parseISO k = Some (DailyTimesheet.date d)
       /\ DailyTimesheet.entries d
          = JS.sort TimeParser.byDateAscending
              (filter (fun e => String.eqb (TimeParser.dayKey e) k) entries)
       /\ DailyTimesheet.totalHours d
          = TimeParser.sumHours (DailyTimesheet.entries d))
    (JS.sort_strings
       (JS.map_keys (TimeParser.groupEntries TimeParser.dayKey entries)))
    days.
Proof.
  unfold TimeParser.groupByDay. intros H. apply traverse_Some in H.
  eapply Forall2_impl; [|exact H]. cbv beta. intros k d Hkd.
  unfold TimeParser.groupEntries in Hkd. rewrite group_get_or_empty in Hkd.
  destruct (parseISO k) as [date|]; [|discriminate].
  injection Hkd as <-. cbn. auto.
Qed.

Lemma groupByDay_total (entries : list TimeEntry.t) :
  Forall (fun e => Spec.supported (TimeEntry.date e)) entries ->
  exists days, TimeParser.groupByDay entries = Some days.
Proof.
  intros Hsup. unfold TimeParser.groupByDay. apply traverse_total.
  apply Forall_forall. intros k Hk.
  apply (sorted_keys_spec TimeParser.dayKey entries) in Hk.
  destruct Hk as (e & He & <-).
  rewrite Forall_forall in Hsup. unfold TimeParser.dayKey.
  rewrite parseISO_format_ymd by auto. discriminate.
Qed.

(** The entries under a key are the entries of the day it names. *)
Lemma filter_dayKey (entries : list TimeEntry.t) (e0 : TimeEntry.t) :
  Forall (fun e => Spec.supported (TimeEntry.date e)) entries ->
  Spec.supported (TimeEntry.date e0) ->
  filter (fun e => String.eqb (TimeParser.dayKey e) (TimeParser.dayKey e0)) entries
  = filter (Spec.onDay (startOfDay (TimeEntry.date e0))) entries.
Proof.
  intros Hsup H0. apply filter_ext_in. intros e He.
  rewrite Forall_forall in Hsup. specialize (Hsup e He).
  unfold Spec.onDay, TimeParser.dayKey.
  pose proof (format_ymd_inj _ _ Hsup H0) as Hinj.
  destruct (String.eqb_spec (format_ymd (TimeEntry.date e))
                            (format_ymd (TimeEntry.date e0)));
    destruct (Z.eqb_spec (startOfDay (TimeEntry.date e))
                         (startOfDay (TimeEntry.date e0)));
    tauto.
Qed.

(** The groups of [groupByDay], within the supported range. *)
Lemma groupByDay_spec (entries : list TimeEntry.t) (days : list DailyTimesheet.t) :
  Forall (fun e => Spec.supported (TimeEntry.date e)) entries ->
  TimeParser.groupByDay entries = Some days ->
  StronglySorted
    (fun d1 d2 => DailyTimesheet.date d1 < DailyTimesheet.date d2) days
  /\ (forall e, In e entries ->
        exists d, In d days
                  /\ DailyTimesheet.date d = startOfDay (TimeEntry.date e))
  /\ Forall (fun d =>
               (exists e, In e entries
                          /\ DailyTimesheet.date d = startOfDay (TimeEntry.date e))
               /\ DailyTimesheet.entries d
                  = Spec.entriesOfDay (DailyTimesheet.date d) entries
               /\ DailyTimesheet.totalHours d
                  = TimeParser.sumHours (DailyTimesheet.entries d)) days.
Proof.
  intros Hsup H. apply groupByDay_inv in H.
  destruct (sorted_keys_spec TimeParser.dayKey entries) as (Hss & Hnd & Hks).
  cbv zeta in Hss, Hnd, Hks. fold (TimeParser.groupEntries TimeParser.dayKey entries) in *.
  pose proof Hsup as Hsup'. rewrite Forall_forall in Hsup'.
  split; [|split].
  - eapply Forall2_StronglySorted; [|exact H|exact Hss].
    cbv beta. intros k1 k2 d1 d2 (P1 & _) (P2 & _) Hlt.
    eapply parseISO_lt; eassumption.
  - intros e He.
    assert (In (TimeParser.dayKey e)
               (JS.sort_strings
                  (JS.map_keys (TimeParser.groupEntries TimeParser.dayKey entries))))
      as Hk by (apply Hks; eauto).
    destruct (Forall2_In_l _ _ _ _ H Hk) as (d & Hd & Hp & _).
    exists d. split; [assumption|].
    unfold TimeParser.dayKey in Hp.
    rewrite parseISO_format_ymd in Hp by auto. congruence.
  - apply Forall_forall. intros d Hd.
    destruct (Forall2_In_r _ _ _ _ H Hd) as (k & Hk & Hp & He & Ht).
    apply Hks in Hk. destruct Hk as (e0 & He0 & <-).
    assert (DailyTimesheet.date d = startOfDay (TimeEntry.date e0)) as Hdate.
    { unfold TimeParser.dayKey in Hp.
      rewrite parseISO_format_ymd in Hp by auto. congruence. }
    split; [eauto|]. split; [|assumption].
    rewrite He, Hdate. unfold Spec.entriesOfDay.
    now rewrite filter_dayKey by auto.
Qed.

(** ** Weeks *)

Lemma startOfWeek_day (t : Z) :
  exists i, 0 <= i <= 6
            /\ startOfWeek 1 t = (dayNumber t - i) * msPerDay
            /\ (dayNumber t - i + 4) mod 7 = 1.
Proof.
  unfold startOfWeek, getDay, startOfDay, addDays. cbv zeta.
  set (D := dayNumber t).
  set (diff := (if (D + 4) mod 7 <? 1 then 7 else 0) + (D + 4) mod 7 - 1).
  assert (0 <= diff <= 6 /\ (D - diff + 4) mod 7 = 1) as [Hdiff Hmon].
  { unfold diff. destruct ((D + 4) mod 7 <? 1) eqn:E;
      [apply Z.ltb_lt in E | apply Z.ltb_ge in E]; zlia. }
  clearbody diff. exists diff. split; [assumption|]. split; [|assumption].
  f_equal. unfold D, dayNumber, msPerDay. zlia.
Qed.

Lemma startOfWeek_spec (t : Z) :
  let ws := startOfWeek 1 t in
  startOfDay ws = ws /\ getDay ws = 1
  /\ exists i, 0 <= i <= 6 /\ startOfDay t = addDays ws i.
Proof.
  cbv zeta. destruct (startOfWeek_day t) as (i & Hi & -> & Hmon).
  assert (dayNumber ((dayNumber t - i) * msPerDay) = dayNumber t - i) as Hd
    by (unfold dayNumber at 1, msPerDay; zlia).
  unfold startOfDay, getDay, addDays. rewrite Hd.
  split; [reflexivity|]. split; [assumption|].
  exists i. split; [assumption|]. ring.
Qed.

Lemma startOfWeek_supported (t : Z) :
  Spec.supported t -> Spec.supported (startOfWeek 1 t).
Proof.
  destruct (startOfWeek_day t) as (i & Hi & -> & Hmon).
  unfold Spec.supported, Spec.minSupported, Spec.maxSupported,
    dayNumber, msPerDay in *.
  zlia.
Qed.

(** The days of the week that starts on the Monday midnight [ws]. *)
Lemma week_days (ws : Z) :
  startOfDay ws = ws -> getDay ws = 1 ->
  eachDayOfInterval ws (endOfWeek 1 ws)
  = List.map (addDays ws) [0; 1; 2; 3; 4; 5; 6].
Proof.
  intros Hmid Hmon.
  unfold eachDayOfInterval, endOfWeek. cbv zeta. rewrite Hmon.
  change ((if 1 <? 1 then -7 else 0) + 6 - (1 - 1)) with 6.
  assert (startOfDay (addDays ws 6) = addDays ws 6) as ->.
  { unfold startOfDay, addDays, dayNumber, msPerDay in *. zlia. }
  rewrite Hmid.
  replace ((addDays ws 6 + (msPerDay - 1) - ws) / msPerDay + 1) with 7
    by (unfold addDays, msPerDay; zlia).
  reflexivity.
Qed.

Lemma startOfWeek_of_weekday (ws i t : Z) :
  startOfDay ws = ws -> getDay ws = 1 -> 0 <= i <= 6 ->
  startOfDay t = addDays ws i -> startOfWeek 1 t = ws.
Proof.
  intros Hmid Hmon Hi Ht.
  destruct (startOfWeek_day t) as (j & Hj & -> & Hmon').
  unfold startOfDay, getDay, addDays, dayNumber, msPerDay in *. zlia.
Qed.

Lemma weekday_range (ws i : Z) :
  Spec.supported ws -> startOfDay ws = ws -> getDay ws = 1 -> 0 <= i <= 6 ->
  Spec.supported (addDays ws i)
  \/ Spec.maxSupported <= addDays ws i < Spec.maxSupported + 2 * msPerDay.
Proof.
  unfold Spec.supported, Spec.minSupported, Spec.maxSupported,
    startOfDay, getDay, addDays, dayNumber, msPerDay.
  intros Hs Hmid Hmon Hi. zlia.
Qed.

Lemma addDays_midnight (ws i : Z) :
  startOfDay ws = ws -> startOfDay (addDays ws i) = addDays ws i.
Proof. unfold startOfDay, addDays, dayNumber, msPerDay. intros H. zlia. Qed.

Lemma map_get_fold_set {B : Type} (kf : B -> string) (ds : list B) (k : string) :
  match JS.map_get k (fold_left (fun m d => JS.map_set (kf d) d m) ds []) with
  | Some d => In d ds /\ kf d = k
  | None => forall d, In d ds -> kf d <> k
  end.
Proof.
  induction ds as [|d ds IH] using rev_ind.
  - simpl. intros d [].
  - rewrite fold_left_app. simpl.
    destruct (String.eqb_spec (kf d) k) as [<-|Hne].
    + rewrite map_get_set_same. split; [apply in_or_app; right; now left|reflexivity].
    + rewrite map_get_set_other by congruence.
      destruct (JS.map_get k _) as [d'|].
      * destruct IH as [Hin Hk]. split; [apply in_or_app; now left|assumption].
      * intros d' Hd'. apply in_app_or in Hd'.
        destruct Hd' as [Hd'|[<-|[]]]; [now apply IH|assumption].
Qed.

Lemma sumQ_pointwise {A : Type} (f g : A -> Q) (l : list A) :
  (forall x, In x l -> (f x == g x)%Q) ->
  (Spec.sumQ (List.map f l) == Spec.sumQ (List.map g l))%Q.
Proof.
  induction l as [|x l IH]; simpl; intros H; [reflexivity|].
  rewrite (H x) by now left. rewrite IH; [reflexivity|].
  intros y Hy. apply H. now right.
Qed.

Lemma sumQ_entriesOfDay (x : Z) (entries : list TimeEntry.t) :
  (Spec.sumQ (List.map Spec.hoursOf (Spec.entriesOfDay x entries))
   == Spec.sumQ (List.map Spec.hoursOf (filter (Spec.onDay x) entries)))%Q.
Proof.
  apply sumQ_Permutation, Permutation_map, sort_Permutation.
Qed.

(** One day of a week view: the group of that day when there is one,
    the empty day otherwise. *)
Lemma completeDay_spec (weekEntries : list TimeEntry.t)
    (days : list DailyTimesheet.t) (x : Z) :
  Forall (fun e => Spec.supported (TimeEntry.date e)) weekEntries ->
  TimeParser.groupByDay weekEntries = Some days ->
  startOfDay x = x ->
  Spec.supported x \/ Spec.maxSupported <= x < Spec.maxSupported + 2 * msPerDay ->
  let daysWithEntries :=
    fold_left (fun map d => JS.map_set (format_ymd (DailyTimesheet.date d)) d map)
              days [] in
  let r := match JS.map_get (format_ymd x) daysWithEntries with
           | Some d => d
           | None => TimeParser.emptyDay x
           end in
  DailyTimesheet.date r = x
  /\ DailyTimesheet.entries r = Spec.entriesOfDay x weekEntries
  /\ (Spec.numericHours (DailyTimesheet.entries r) ->
      Spec.isNumber (DailyTimesheet.totalHours r)
        (Spec.sumQ (List.map Spec.hoursOf (DailyTimesheet.entries r))))
  /\ (DailyTimesheet.entries r = [] -> r = TimeParser.emptyDay x).
Proof.
  intros Hsup Hdays Hmid Hx. cbv zeta.
  destruct (groupByDay_spec _ _ Hsup Hdays) as (_ & Hcover & Hall).
  rewrite Forall_forall in Hall, Hsup.
  pose proof (map_get_fold_set
                (fun d => format_ymd (DailyTimesheet.date d)) days (format_ymd x))
    as Hget.
  destruct (JS.map_get (format_ymd x) _) as [d|].
  - destruct Hget as [Hd Hk].
    destruct (Hall d Hd) as ((e & He & Hdate) & Hent & Htot).
    assert (Spec.supported (DailyTimesheet.date d)) as Hsd
      by (rewrite Hdate; apply supported_startOfDay; auto).
    assert (DailyTimesheet.date d = x) as Hdx.
    { pose proof (parseISO_format_ymd _ Hsd) as Hp. rewrite Hk in Hp.
      destruct Hx as [Hx|Hx].
      - rewrite (parseISO_format_ymd _ Hx), Hmid in Hp.
        rewrite Hdate, startOfDay_idem in Hp. congruence.
      - rewrite (parseISO_format_ymd_after _ Hx) in Hp. discriminate. }
    split; [assumption|]. split; [congruence|]. split.
    + intros Hn. rewrite Htot. now apply sumHours_numeric.
    + intros Hnil. exfalso.
      assert (In e (DailyTimesheet.entries d)) as Hin.
      { rewrite Hent. unfold Spec.entriesOfDay. apply sort_In, filter_In.
        split; [assumption|]. unfold Spec.onDay. apply Z.eqb_eq. congruence. }
      rewrite Hnil in Hin. destruct Hin.
  - assert (filter (Spec.onDay x) weekEntries = []) as Hnone.
    { apply (filter_key_absent Z.eqb Z.eqb_spec
               (fun e => startOfDay (TimeEntry.date e))).
      intros e He Hex.
      destruct (Hcover e He) as (d & Hd & Hdate).
      apply (Hget d Hd). now rewrite Hdate, Hex. }
    cbn. unfold Spec.entriesOfDay. rewrite Hnone. cbn.
    split; [reflexivity|]. split; [reflexivity|].
    split; [intros _; reflexivity|reflexivity].
Qed.

(** The seven days of a week view and their totals. *)
Lemma completeDays_spec (weekEntries : list TimeEntry.t)
    (days : list DailyTimesheet.t) (ws : Z) :
  Forall (fun e => Spec.supported (TimeEntry.date e)) weekEntries ->
  TimeParser.groupByDay weekEntries = Some days ->
  Spec.supported ws -> startOfDay ws = ws -> getDay ws = 1 ->
  (forall e, In e weekEntries -> startOfWeek 1 (TimeEntry.date e) = ws) ->
  let daysWithEntries :=
    fold_left (fun map d => JS.map_set (format_ymd (DailyTimesheet.date d)) d map)
              days [] in
  let completeDays :=
    List.map (fun date =>
                match JS.map_get (format_ymd date) daysWithEntries with
                | Some d => d
                | None => TimeParser.emptyDay date
                end)
             (eachDayOfInterval ws (endOfWeek 1 ws)) in
  List.map DailyTimesheet.date completeDays
  = List.map (addDays ws) [0; 1; 2; 3; 4; 5; 6]
  /\ Forall (fun d =>
               DailyTimesheet.entries d
               = Spec.entriesOfDay (DailyTimesheet.date d) weekEntries
               /\ (DailyTimesheet.entries d = []
                   -> d = TimeParser.emptyDay (DailyTimesheet.date d)))
            completeDays
  /\ (Spec.numericHours weekEntries ->
      Forall (fun d => exists q, DailyTimesheet.totalHours d = JS.Num q)
             completeDays
      /\ Spec.isNumber (TimeParser.sumHours weekEntries)
           (Spec.sumQ (List.map (fun d => Spec.numberOf (DailyTimesheet.totalHours d))
                                completeDays))).
Proof.
  intros Hsup Hdays Hws Hmid Hmon Hweek. cbv zeta.
  rewrite (week_days ws Hmid Hmon).
  set (xs := List.map (addDays ws) [0; 1; 2; 3; 4; 5; 6]).
  set (g := fun date => match JS.map_get (format_ymd date) _ with
                        | Some d => d
                        | None => TimeParser.emptyDay date
                        end).
  assert (forall x, In x xs ->
            DailyTimesheet.date (g x) = x
            /\ DailyTimesheet.entries (g x) = Spec.entriesOfDay x weekEntries
            /\ (Spec.numericHours (DailyTimesheet.entries (g x)) ->
                Spec.isNumber (DailyTimesheet.totalHours (g x))
                  (Spec.sumQ (List.map Spec.hoursOf
                                       (DailyTimesheet.entries (g x)))))
            /\ (DailyTimesheet.entries (g x) = [] -> g x = TimeParser.emptyDay x))
    as Hg.
  { intros x Hx. unfold xs in Hx. apply in_map_iff in Hx.
    destruct Hx as (i & <- & Hi).
    assert (0 <= i <= 6) as Hi' by (simpl in Hi; lia).
    apply (completeDay_spec weekEntries days); auto.
    - now apply addDays_midnight.
    - now apply weekday_range. }
  split; [|split].
  - rewrite map_map. rewrite <- (map_id xs) at 2.
    apply map_ext_in. intros x Hx. now apply Hg.
  - apply Forall_forall. intros d Hd. apply in_map_iff in Hd.
    destruct Hd as (x & <- & Hx). destruct (Hg x Hx) as (-> & He & _ & Hn).
    auto.
  - intros Hnum.
    assert (forall x, In x xs ->
              Spec.isNumber (DailyTimesheet.totalHours (g x))
                (Spec.sumQ (List.map Spec.hoursOf
                                     (filter (Spec.onDay x) weekEntries))))
      as Htot.
    { intros x Hx. destruct (Hg x Hx) as (_ & He & Ht & _).
      eapply isNumber_comp; [|apply Ht].
      - rewrite He. apply sumQ_entriesOfDay.
      - rewrite He. eapply numericHours_incl; [|exact Hnum].
        intros e Hin. unfold Spec.entriesOfDay in Hin.
        apply sort_In, filter_In in Hin. tauto. }
    split.
    { apply Forall_forall. intros d Hd. apply in_map_iff in Hd.
      destruct Hd as (x & <- & Hx).
      destruct (isNumber_Num _ _ (Htot x Hx)) as (q & -> & _). eauto. }
    eapply isNumber_comp; [|apply sumHours_numeric, Hnum].
    rewrite map_map.
    rewrite (sumQ_pointwise
               (fun x => Spec.numberOf (DailyTimesheet.totalHours (g x)))
               (fun x => Spec.sumQ (List.map Spec.hoursOf
                                      (filter (Spec.onDay x) weekEntries)))).
    + rewrite <- (map_map (fun x => List.map Spec.hoursOf
                                      (filter (Spec.onDay x) weekEntries))
                          Spec.sumQ).
      rewrite <- sumQ_concat.
      rewrite <- (map_map (fun x => filter (Spec.onDay x) weekEntries)
                          (List.map Spec.hoursOf)).
      rewrite <- concat_map.
      apply sumQ_Permutation, Permutation_map, Permutation_sym.
      apply (partition_Permutation Z.eqb Z.eqb_spec
               (fun e => startOfDay (TimeEntry.date e))).
      * unfold xs, addDays, msPerDay. cbn [List.map].
        repeat (constructor; [cbn [In]; lia|]). constructor.
      * intros e He.
        destruct (startOfWeek_spec (TimeEntry.date e)) as (_ & _ & i & Hi & Hd).
        rewrite (Hweek e He) in Hd. rewrite Hd. unfold xs.
        apply in_map. simpl. lia.
    + intros x Hx.
      destruct (isNumber_Num _ _ (Htot x Hx)) as (q & -> & Hq). exact Hq.
Qed.

(** ** The aggregator *)

Lemma traverse_Forall {A B : Type} (f : A -> option B) (P : B -> Prop)
    (l : list A) :
  (forall x, In x l -> exists y, f x = Some y /\ P y) ->
  exists r, JS.traverse f l = Some r /\ Forall P r
            /\ List.length r = List.length l.
Proof.
  induction l as [|x l IH]; intros H; simpl.
  - exists []. repeat split. constructor.
  - destruct (H x (or_introl eq_refl)) as (y & -> & Hy).
    destruct IH as (r & -> & Hr & Hlen); [intros x' Hx'; apply H; now right|].
    exists (y :: r). repeat split; [now constructor | simpl; congruence].
Qed.

Lemma Sorted_impl {A : Type} (R R' : A -> A -> Prop) (l : list A) :
  (forall a b, R a b -> R' a b) -> Sorted R l -> Sorted R' l.
Proof.
  intros HR. induction 1 as [|a l Hs IH Hhd]; constructor; [assumption|].
  destruct Hhd; constructor; auto.
Qed.

Lemma entriesOfDay_sorted (x : Z) (entries : list TimeEntry.t) :
  StronglySorted (fun a b => TimeEntry.date a <= TimeEntry.date b)
                 (Spec.entriesOfDay x entries).
Proof.
  apply Sorted_StronglySorted; [intros a b c; lia|].
  unfold Spec.entriesOfDay.
  eapply Sorted_impl; [|apply (sort_Sorted TimeParser.byDateAscending)].
  - unfold TimeParser.byDateAscending. intros a b. lia.
  - unfold TimeParser.byDateAscending. intros a b. lia.
Qed.

(** C6, as the code has it: for every entry list with dates in the
    years 0001 to 9999, [groupByDay] emits one group per distinct
    calendar date, in ascending date order; within each group the
    entries are ordered ascending by their exact timestamp; each
    group's total is the sum of its member entries' hours, when these
    are numbers. *)
Theorem groupByDay_ordered_groups (entries : list TimeEntry.t) :
  Spec.allSupported entries ->
  exists days,
    TimeParser.groupByDay entries = Some days
    /\ (forall e, In e entries ->
          exists d, In d days
                    /\ DailyTimesheet.date d = startOfDay (TimeEntry.date e))
    /\ StronglySorted
         (fun d1 d2 => DailyTimesheet.date d1 < DailyTimesheet.date d2) days
    /\ Forall (Spec.dayGroup entries) days.
Proof.
  intros Hsup. destruct (groupByDay_total entries Hsup) as (days & Hdays).
  exists days. split; [assumption|].
  destruct (groupByDay_spec _ _ Hsup Hdays) as (Hsorted & Hcover & Hall).
  split; [assumption|]. split; [assumption|].
  eapply Forall_impl; [|exact Hall]. cbv beta.
  intros d ((e & He & Hdate) & Hent & Htot).
  assert (forall e', In e' (DailyTimesheet.entries d)
                     <-> In e' entries
                         /\ startOfDay (TimeEntry.date e') = DailyTimesheet.date d)
    as Hmem.
  { intros e'. rewrite Hent. unfold Spec.entriesOfDay.
    rewrite sort_In, filter_In. unfold Spec.onDay. now rewrite Z.eqb_eq. }
  unfold Spec.dayGroup.
  split; [|split; [|split; [|split]]].
  - intros Hnil. assert (In e (DailyTimesheet.entries d)) as Hin
      by (apply Hmem; split; [assumption|congruence]).
    rewrite Hnil in Hin. destruct Hin.
  - rewrite Hdate. apply startOfDay_idem.
  - exact Hmem.
  - rewrite Hent. apply entriesOfDay_sorted.
  - intros Hn. rewrite Htot. now apply sumHours_numeric.
Qed.

Lemma groupByDay_ordered_groups_witness :
  exists days,
    TimeParser.groupByDay Spec.sampleEntries = Some days
    /\ (forall e, In e Spec.sampleEntries ->
          exists d, In d days
                    /\ DailyTimesheet.date d = startOfDay (TimeEntry.date e))
    /\ StronglySorted
         (fun d1 d2 => DailyTimesheet.date d1 < DailyTimesheet.date d2) days
    /\ Forall (Spec.dayGroup Spec.sampleEntries) days.
Proof.
  apply (groupByDay_ordered_groups Spec.sampleEntries).
  repeat constructor; vm_compute; discriminate.
Defined.

(** C6 as stated fails outside the years 0001 to 9999: the key of a
    date of the year 0 shows the year 0001, and the entries of
    0000-12-31 and of 0001-12-31, one year apart, land in one group,
    dated 0001-12-31.  It also fails when the hours of an entry are no
    number: the total of the group is then a string. *)
Lemma groupByDay_year_zero :
  (exists d,
      TimeParser.groupByDay
        [Spec.sampleEntry "a" Spec.lastDayOfYearZero 1;
         Spec.sampleEntry "b" Spec.lastDayOfYearOne 2] = Some [d]
      /\ DailyTimesheet.entries d
         = [Spec.sampleEntry "a" Spec.lastDayOfYearZero 1;
            Spec.sampleEntry "b" Spec.lastDayOfYearOne 2]
      /\ DailyTimesheet.date d = startOfDay Spec.lastDayOfYearOne
      /\ startOfDay Spec.lastDayOfYearZero <> startOfDay Spec.lastDayOfYearOne)
  /\ (exists d,
        TimeParser.groupByDay [Spec.inheritedEntry] = Some [d]
        /\ DailyTimesheet.entries d = [Spec.inheritedEntry]
        /\ TimeEntry.hours Spec.inheritedEntry = JS.Member "constructor"
        /\ DailyTimesheet.totalHours d
           = JS.Str "0function Object() { [native code] }").
Proof.
  split.
  - eexists. split; [vm_compute; reflexivity|].
    cbn [DailyTimesheet.entries DailyTimesheet.date].
    split; [reflexivity|]. split; [reflexivity|]. vm_compute. discriminate.
  - eexists. split; [vm_compute; reflexivity|].
    cbn [DailyTimesheet.entries DailyTimesheet.totalHours].
    split; [reflexivity|]. split; reflexivity.
Qed.

(** C7: concatenating the entry sequences of the groups returned by
    [groupByDay] yields the original entries as a multiset: none is
    dropped, none is duplicated; and [groupByDay] does return within the
    supported range of dates. *)
Theorem groupByDay_flatten (entries : list TimeEntry.t) :
  (forall days,
      TimeParser.groupByDay entries = Some days ->
      Permutation (List.concat (List.map DailyTimesheet.entries days)) entries)
  /\ (Spec.allSupported entries ->
      exists days, TimeParser.groupByDay entries = Some days).
Proof.
  split; [|apply groupByDay_total].
  intros days H. apply groupByDay_inv in H.
  destruct (sorted_keys_spec TimeParser.dayKey entries) as (_ & Hnd & Hks).
  cbv zeta in Hnd, Hks.
  fold (TimeParser.groupEntries TimeParser.dayKey entries) in *.
  set (ks := JS.sort_strings _) in *.
  apply perm_trans with
    (List.concat
       (List.map (fun k => filter (fun e => String.eqb (TimeParser.dayKey e) k)
                                  entries) ks)).
  - clear Hnd Hks. induction H as [|k d ks' days' (_ & He & _) _ IH].
    + constructor.
    + cbn [List.map List.concat]. apply Permutation_app; [|exact IH].
      rewrite He. apply sort_Permutation.
  - apply (partition_Permutation String.eqb String.eqb_spec); [assumption|].
    intros e He. apply Hks. eauto.
Qed.

Lemma groupByDay_flatten_witness :
  exists days,
    TimeParser.groupByDay Spec.sampleEntries = Some days
    /\ Permutation (List.concat (List.map DailyTimesheet.entries days))
                   Spec.sampleEntries.
Proof.
  destruct (groupByDay_flatten Spec.sampleEntries) as [Hperm Htotal].
  destruct Htotal as (days & Hdays).
  - repeat constructor; vm_compute; discriminate.
  - exists days. split; [exact Hdays | exact (Hperm days Hdays)].
Defined.

Lemma filter_filter_implied {A : Type} (p q : A -> bool) (l : list A) :
  (forall x, In x l -> q x = true -> p x = true) ->
  filter q (filter p l) = filter q l.
Proof.
  induction l as [|x l IH]; simpl; intros H; [reflexivity|].
  destruct (p x) eqn:Ep; simpl.
  - rewrite IH; [reflexivity|]. intros y Hy. apply H. now right.
  - destruct (q x) eqn:Eq.
    + rewrite (H x (or_introl eq_refl) Eq) in Ep. discriminate.
    + apply IH. intros y Hy. apply H. now right.
Qed.

(** The entries of one day of a week are found among the entries of
    that week. *)
Lemma entriesOfDay_week (entries : list TimeEntry.t) (e0 : TimeEntry.t)
    (i : Z) :
  Spec.allSupported entries -> Spec.supported (TimeEntry.date e0) ->
  0 <= i <= 6 ->
  let ws := startOfWeek 1 (TimeEntry.date e0) in
  Spec.entriesOfDay (addDays ws i)
    (filter (fun e => String.eqb (TimeParser.weekKey e) (TimeParser.weekKey e0))
            entries)
  = Spec.entriesOfDay (addDays ws i) entries.
Proof.
  intros Hsup H0 Hi. cbv zeta. unfold Spec.entriesOfDay. f_equal.
  apply filter_filter_implied. intros e He Hday.
  unfold Spec.onDay in Hday. apply Z.eqb_eq in Hday.
  destruct (startOfWeek_spec (TimeEntry.date e0)) as (Hmid & Hmon & _).
  apply String.eqb_eq. unfold TimeParser.weekKey. f_equal.
  eapply startOfWeek_of_weekday; eassumption.
Qed.

(** C3, as the code has it: for every non-empty entry list with dates
    in the years 0001 to 9999, every week view produced by
    [groupByWeek] contains exactly seven consecutive days from the
    Monday week start through Sunday, with the empty zero-total day for
    each day lacking entries, and the week's total hours equal the sum
    of its seven daily totals, when the hours of the entries are
    numbers. *)
Theorem groupByWeek_complete_weeks (entries : list TimeEntry.t) :
  Spec.allSupported entries ->
  exists weeks,
    TimeParser.groupByWeek entries = Some weeks
    /\ (entries <> [] -> weeks <> [])
    /\ Forall (Spec.completeWeek entries) weeks.
Proof.
  intros Hsup.
  destruct (sorted_keys_spec TimeParser.weekKey entries) as (_ & _ & Hks).
  cbv zeta in Hks.
  fold (TimeParser.groupEntries TimeParser.weekKey entries) in Hks.
  unfold TimeParser.groupByWeek.
  set (ks := JS.sort_strings _) in *.
  match goal with
  | |- exists weeks, JS.traverse ?f ks = Some weeks /\ _ =>
      destruct (traverse_Forall f (Spec.completeWeek entries) ks)
        as (weeks & Hweeks & Hall & Hlen)
  end.
  - intros wk Hwk. apply Hks in Hwk. destruct Hwk as (e0 & He0 & <-).
    pose proof Hsup as Hsup'. unfold Spec.allSupported in Hsup'.
    rewrite Forall_forall in Hsup'.
    pose proof (Hsup' e0 He0) as H0.
    unfold TimeParser.groupEntries. rewrite group_get_or_empty.
    set (weekEntries := filter _ entries).
    destruct (startOfWeek_spec (TimeEntry.date e0)) as (Hmid & Hmon & _).
    set (ws := startOfWeek 1 (TimeEntry.date e0)) in *.
    assert (Spec.supported ws) as Hws by now apply startOfWeek_supported.
    assert (parseISO (TimeParser.weekKey e0) = Some ws) as ->.
    { unfold TimeParser.weekKey. fold ws.
      rewrite parseISO_format_ymd by assumption. now rewrite Hmid. }
    assert (Spec.allSupported weekEntries) as Hsupw.
    { apply Forall_forall. intros e He. apply filter_In in He. now apply Hsup'. }
    assert (forall e, In e weekEntries -> startOfWeek 1 (TimeEntry.date e) = ws)
      as Hweek.
    { intros e He. apply filter_In in He. destruct He as [He Hk].
      apply String.eqb_eq in Hk. unfold TimeParser.weekKey in Hk.
      apply format_ymd_inj in Hk; try (apply startOfWeek_supported; auto).
      destruct (startOfWeek_spec (TimeEntry.date e)) as (Hmid' & _).
      fold ws in Hk. congruence. }
    destruct (groupByDay_total weekEntries Hsupw) as (days & Hdays).
    rewrite Hdays. eexists. split; [reflexivity|].
    destruct (completeDays_spec weekEntries days ws
                Hsupw Hdays Hws Hmid Hmon Hweek) as (Hdates & Hdaysall & Htotal).
    unfold Spec.completeWeek.
    cbn [WeeklyTimesheet.weekStart WeeklyTimesheet.days
         WeeklyTimesheet.totalHours].
    split; [assumption|]. split; [assumption|].
    split; [|split; [assumption|split]].
    + apply (f_equal (@List.length Z)) in Hdates.
      rewrite !length_map in Hdates. rewrite length_map. exact Hdates.
    + assert (Forall (fun d => In (DailyTimesheet.date d)
                                  (List.map (addDays ws) [0; 1; 2; 3; 4; 5; 6]))
                     (List.map (fun date =>
                                  match JS.map_get (format_ymd date)
                                          (fold_left
                                             (fun map d =>
                                                JS.map_set
                                                  (format_ymd (DailyTimesheet.date d))
                                                  d map) days [])
                                  with
                                  | Some d => d
                                  | None => TimeParser.emptyDay date
                                  end)
                               (eachDayOfInterval ws (endOfWeek 1 ws)))) as Hin.
      { apply Forall_forall. intros d Hd. rewrite <- Hdates.
        now apply in_map. }
      rewrite Forall_forall in Hdaysall, Hin |- *.
      intros d Hd. destruct (Hdaysall d Hd) as (Hent & Hempty).
      split; [|assumption]. rewrite Hent.
      specialize (Hin d Hd). apply in_map_iff in Hin.
      destruct Hin as (i & <- & Hi).
      apply (entriesOfDay_week entries e0 i); auto. simpl in Hi. lia.
    + intros Hn. apply Htotal.
      eapply numericHours_incl; [|exact Hn].
      intros e He. apply filter_In in He. tauto.
  - exists weeks. split; [assumption|]. split; [|assumption].
    intros Hne ->. simpl in Hlen.
    destruct entries as [|e entries']; [congruence|].
    assert (In (TimeParser.weekKey e) ks) as Hk
      by (apply Hks; exists e; split; [now left|reflexivity]).
    destruct ks; [destruct Hk|discriminate].
Qed.

Lemma groupByWeek_complete_weeks_witness :
  exists weeks,
    TimeParser.groupByWeek Spec.sampleEntries = Some weeks
    /\ (Spec.sampleEntries <> [] -> weeks <> [])
    /\ Forall (Spec.completeWeek Spec.sampleEntries) weeks.
Proof.
  apply (groupByWeek_complete_weeks Spec.sampleEntries).
  repeat constructor; vm_compute; discriminate.
Defined.

(** C3 as stated fails outside the years 0001 to 9999: the week of an
    entry of 0000-12-31 has six days, from a Tuesday on, none of which
    holds the entry, and a total of 1 hour over daily totals of 0.  It
    also fails when the hours of an entry are no number: the totals of
    its week and of its day are strings. *)
Lemma groupByWeek_year_zero :
  (exists w,
      TimeParser.groupByWeek [Spec.sampleEntry "a" Spec.lastDayOfYearZero 1]
      = Some [w]
      /\ List.length (WeeklyTimesheet.days w) = 6%nat
      /\ getDay (WeeklyTimesheet.weekStart w) = 2
      /\ Forall (fun d => DailyTimesheet.entries d = []
                          /\ DailyTimesheet.totalHours d = JS.Num 0)
                (WeeklyTimesheet.days w)
      /\ WeeklyTimesheet.totalHours w = JS.Num 1)
  /\ (exists w,
        TimeParser.groupByWeek [Spec.inheritedEntry] = Some [w]
        /\ List.length (WeeklyTimesheet.days w) = 7%nat
        /\ TimeEntry.hours Spec.inheritedEntry = JS.Member "constructor"
        /\ WeeklyTimesheet.totalHours w
           = JS.Str "0function Object() { [native code] }").
Proof.
  split.
  - eexists. split; [vm_compute; reflexivity|].
    cbn [WeeklyTimesheet.days WeeklyTimesheet.weekStart
         WeeklyTimesheet.totalHours].
    split; [reflexivity|]. split; [reflexivity|].
    split; [|reflexivity]. repeat constructor.
  - eexists. split; [vm_compute; reflexivity|].
    cbn [WeeklyTimesheet.days WeeklyTimesheet.totalHours].
    split; [reflexivity|]. split; reflexivity.
Qed.

(** ** The range filter *)

(** C4: [filterByDateRange] keeps exactly the entries whose date is at
    least [startDate] and at most [endDate] plus 23 hours; an entry
    dated exactly at the start of a range is kept, an entry dated one
    full day after the boundary is not. *)
Theorem filterByDateRange_keeps (entries : list TimeEntry.t)
    (startDate endDate : Z) :
  (forall e,
      In e (TimeParser.filterByDateRange entries startDate endDate)
      <-> In e entries
          /\ startDate <= TimeEntry.date e <= endDate + 23 * msPerHour)
  /\ (forall e,
        startDate <= endDate -> In e entries -> TimeEntry.date e = startDate ->
        In e (TimeParser.filterByDateRange entries startDate endDate))
  /\ (forall e,
        TimeEntry.date e = endDate + 23 * msPerHour + msPerDay ->
        ~ In e (TimeParser.filterByDateRange entries startDate endDate)).
Proof.
  assert (forall e,
             In e (TimeParser.filterByDateRange entries startDate endDate)
             <-> In e entries
                 /\ startDate <= TimeEntry.date e <= endDate + 23 * msPerHour)
    as Hmem.
  { intros e. unfold TimeParser.filterByDateRange, addHours.
    rewrite filter_In, andb_true_iff, !Z.leb_le. reflexivity. }
  split; [exact Hmem|]. split.
  - intros e Hrange Hin Hdate. apply Hmem. split; [assumption|].
    unfold msPerHour. lia.
  - intros e Hdate Hin. apply Hmem in Hin. unfold msPerDay in Hdate. lia.
Qed.

Lemma filterByDateRange_keeps_witness :
  In (Spec.sampleEntry "a" Spec.sampleTime 1)
     (TimeParser.filterByDateRange Spec.sampleEntries
        Spec.sampleTime (Spec.sampleTime + msPerDay))
  /\ ~ In (Spec.sampleEntry "late"
            (Spec.sampleTime + msPerDay + 23 * msPerHour + msPerDay) 1)
         (TimeParser.filterByDateRange
            (Spec.sampleEntry "late"
               (Spec.sampleTime + msPerDay + 23 * msPerHour + msPerDay) 1
             :: Spec.sampleEntries)
            Spec.sampleTime (Spec.sampleTime + msPerDay)).
Proof.
  split.
  - apply (proj1 (proj2 (filterByDateRange_keeps Spec.sampleEntries
                           Spec.sampleTime (Spec.sampleTime + msPerDay)))).
    + vm_compute. discriminate.
    + simpl. left. reflexivity.
    + reflexivity.
  - apply (proj2 (proj2 (filterByDateRange_keeps
                           (Spec.sampleEntry "late"
                              (Spec.sampleTime + msPerDay + 23 * msPerHour
                               + msPerDay) 1
                            :: Spec.sampleEntries)
                           Spec.sampleTime (Spec.sampleTime + msPerDay)))).
    reflexivity.
Defined.

(** ** The label decoder *)



(** What indexing a table of numbers finds. *)
Lemma object_get_inv (table : JS.MapOf Q) (c : string) (v : JS.value) :
  JS.object_get c table = Some v ->
  (exists h, JS.map_get c table = Some h /\ v = JS.Num h)
  \/ (JS.map_get c table = None /\ In c JS.Object_prototype /\ v = JS.Member c).
Proof.
  unfold JS.object_get. destruct (JS.map_get c table) as [h|].
  - intros [= <-]. left. eauto.
  - destruct (existsb (String.eqb c) JS.Object_prototype) eqn:E; [|discriminate].
    intros [= <-]. right. split; [reflexivity|]. split; [|reflexivity].
    apply existsb_exists in E. destruct E as (n & Hn & Hc).
    apply String.eqb_eq in Hc. now subst n.
Qed.






(** ** Binary64 rounding *)

Lemma pow2_pos (e : Z) : (0 < 2 ^ e)%Q.
Proof. apply Qpower_0_lt. reflexivity. Qed.

Lemma pow2_add (a b : Z) : (2 ^ (a + b) == 2 ^ a * 2 ^ b)%Q.
Proof. apply Qpower_plus. discriminate. Qed.

Lemma pow2_le (a b : Z) : a <= b -> (2 ^ a <= 2 ^ b)%Q.
Proof. intros H. apply Qpower_le_compat_l; [exact H|discriminate]. Qed.

Lemma pow2_lt (a b : Z) : a < b -> (2 ^ a < 2 ^ b)%Q.
Proof. intros H. apply Qpower_lt_compat_l; [exact H|reflexivity]. Qed.

Lemma pow2_Z (a : Z) : 0 <= a -> (2 ^ a == inject_Z (2 ^ a))%Q.
Proof. intros H. symmetry. apply (Zpower_Qpower 2 a H). Qed.

Lemma exponent_spec (x : Q) :
  (0 < x)%Q ->
  (2 ^ Binary64.exponent x <= x)%Q /\ (x < 2 ^ (Binary64.exponent x + 1))%Q.
Proof.
  intros Hx. unfold Binary64.exponent. cbv zeta.
  destruct x as [n d]. cbn [Qnum Qden].
  assert (0 < n) as Hn by (unfold Qlt in Hx; cbn in Hx; lia).
  pose proof (Z.log2_spec n Hn) as [Ha1 Ha2].
  pose proof (Z.log2_spec (Z.pos d) (Pos2Z.is_pos d)) as [Hb1 Hb2].
  pose proof (Z.log2_nonneg n) as Ha0.
  pose proof (Z.log2_nonneg (Z.pos d)) as Hb0.
  set (a := Z.log2 n) in *. set (b := Z.log2 (Z.pos d)) in *.
  assert ((n # d) * inject_Z (Z.pos d) == inject_Z n)%Q as Hxd.
  { unfold Qeq, Qmult, inject_Z. cbn [Qnum Qden]. lia. }
  assert (2 ^ a <= inject_Z n)%Q as Qa1
    by (rewrite pow2_Z by lia; rewrite <- Zle_Qle; exact Ha1).
  assert (inject_Z n < 2 ^ (a + 1))%Q as Qa2.
  { rewrite pow2_Z by lia. rewrite <- Zlt_Qlt.
    now replace (a + 1) with (Z.succ a) by lia. }
  assert (2 ^ b <= inject_Z (Z.pos d))%Q as Qb1
    by (rewrite pow2_Z by lia; rewrite <- Zle_Qle; exact Hb1).
  assert (inject_Z (Z.pos d) < 2 ^ (b + 1))%Q as Qb2.
  { rewrite pow2_Z by lia. rewrite <- Zlt_Qlt.
    now replace (b + 1) with (Z.succ b) by lia. }
  pose proof (pow2_pos b) as Pb. pose proof (pow2_pos (b + 1)) as Pb1.
  assert ((n # d) < 2 ^ (a - b + 1))%Q as Hup.
  { apply (Qmult_lt_r _ _ (2 ^ b)%Q Pb).
    rewrite <- pow2_add. replace (a - b + 1 + b) with (a + 1) by lia.
    apply Qle_lt_trans with (inject_Z n); [|exact Qa2].
    rewrite <- Hxd. apply Qmult_le_l; [exact Hx|exact Qb1]. }
  assert (2 ^ (a - b - 1) <= (n # d))%Q as Hlo.
  { apply (Qmult_le_r _ _ (2 ^ (b + 1))%Q Pb1).
    rewrite <- pow2_add. replace (a - b - 1 + (b + 1)) with a by lia.
    apply Qle_trans with (inject_Z n); [exact Qa1|].
    rewrite <- Hxd. apply Qmult_le_l; [exact Hx|]. now apply Qlt_le_weak. }
  destruct (Qle_bool (2 ^ (a - b)) (n # d)) eqn:E.
  - apply Qle_bool_iff in E. split; assumption.
  - replace (a - b - 1 + 1) with (a - b) by lia. split; [exact Hlo|].
    apply Qnot_le_lt. intros H. apply Qle_bool_iff in H. congruence.
Qed.

Lemma exponent_unique (x : Q) (e : Z) :
  (2 ^ e <= x)%Q -> (x < 2 ^ (e + 1))%Q -> Binary64.exponent x = e.
Proof.
  intros H1 H2.
  assert (0 < x)%Q as Hx by (eapply Qlt_le_trans; [apply (pow2_pos e)|exact H1]).
  destruct (exponent_spec x Hx) as [E1 E2].
  set (e1 := Binary64.exponent x) in *.
  destruct (Z.lt_trichotomy e1 e) as [H|[H|H]]; [|exact H|].
  - exfalso. assert (2 ^ (e1 + 1) <= 2 ^ e)%Q by (apply pow2_le; lia). lra.
  - exfalso. assert (2 ^ (e + 1) <= 2 ^ e1)%Q by (apply pow2_le; lia). lra.
Qed.

Lemma exponent_mono (x y : Q) :
  (0 < x)%Q -> (x <= y)%Q -> Binary64.exponent x <= Binary64.exponent y.
Proof.
  intros Hx Hxy.
  destruct (exponent_spec x Hx) as [X1 X2].
  destruct (exponent_spec y) as [Y1 Y2]; [lra|].
  destruct (Z_le_gt_dec (Binary64.exponent x) (Binary64.exponent y)) as [H|H];
    [exact H|].
  exfalso.
  assert (2 ^ (Binary64.exponent y + 1) <= 2 ^ Binary64.exponent x)%Q
    by (apply pow2_le; lia).
  lra.
Qed.

Lemma exponent_comp (x y : Q) :
  (0 < x)%Q -> (x == y)%Q -> Binary64.exponent x = Binary64.exponent y.
Proof.
  intros Hx E. apply Z.le_antisymm; apply exponent_mono; lra.
Qed.

Lemma round_even_bounds (y : Q) :
  (y - (1 # 2) <= inject_Z (Binary64.round_even y) <= y + (1 # 2))%Q.
Proof.
  unfold Binary64.round_even. cbv zeta.
  pose proof (Qfloor_le y) as Hle. pose proof (Qlt_floor y) as Hlt.
  rewrite inject_Z_plus in Hlt. change (inject_Z 1) with 1%Q in Hlt.
  destruct (Qcompare_spec (y - inject_Z (Qfloor y)) (1 # 2)) as [E|E|E].
  - destruct (Z.even (Qfloor y)); rewrite ?inject_Z_plus;
      change (inject_Z 1) with 1%Q; lra.
  - lra.
  - rewrite inject_Z_plus. change (inject_Z 1) with 1%Q. lra.
Qed.

Lemma round_even_Z (k : Z) : Binary64.round_even (inject_Z k) = k.
Proof.
  unfold Binary64.round_even. cbv zeta. rewrite Qfloor_Z.
  destruct (Qcompare_spec (inject_Z k - inject_Z k) (1 # 2)) as [E|E|E].
  - exfalso. lra.
  - reflexivity.
  - exfalso. lra.
Qed.

Lemma round_even_comp (x y : Q) :
  (x == y)%Q -> Binary64.round_even x = Binary64.round_even y.
Proof.
  intros E. unfold Binary64.round_even. cbv zeta.
  rewrite (Qfloor_comp _ _ E).
  assert (x - inject_Z (Qfloor y) == y - inject_Z (Qfloor y))%Q as E'
    by (rewrite E; reflexivity).
  now rewrite (Qcompare_comp _ _ E' _ _ (Qeq_refl (1 # 2))).
Qed.

Lemma round_even_mono (x y : Q) :
  (x <= y)%Q -> Binary64.round_even x <= Binary64.round_even y.
Proof.
  intros Hxy.
  pose proof (Qfloor_resp_le _ _ Hxy) as Hf.
  pose proof (round_even_bounds x) as Bx. pose proof (round_even_bounds y) as By.
  unfold Binary64.round_even in *. cbv zeta in *.
  pose proof (Qfloor_le x) as Hlx. pose proof (Qlt_floor x) as Hux.
  pose proof (Qfloor_le y) as Hly. pose proof (Qlt_floor y) as Huy.
  rewrite inject_Z_plus in Hux, Huy. change (inject_Z 1) with 1%Q in Hux, Huy.
  destruct (Z.eq_dec (Qfloor x) (Qfloor y)) as [Ef|Nf].
  - rewrite Ef in *.
    destruct (Qcompare_spec (x - inject_Z (Qfloor y)) (1 # 2)) as [E1|E1|E1];
      destruct (Qcompare_spec (y - inject_Z (Qfloor y)) (1 # 2)) as [E2|E2|E2];
      try lia; try (exfalso; lra);
      destruct (Z.even (Qfloor y)); lia.
  - assert (Qfloor x + 1 <= Qfloor y) as Hlt by lia.
    assert (forall (c : comparison) (b : bool), (match c with Lt => Qfloor x | Eq => if b then Qfloor x else Qfloor x + 1 | Gt => Qfloor x + 1 end) <= Qfloor x + 1) as Hx'
      by (intros [] []; lia).
    assert (forall (c : comparison) (b : bool), Qfloor y <= (match c with Lt => Qfloor y | Eq => if b then Qfloor y else Qfloor y + 1 | Gt => Qfloor y + 1 end)) as Hy'
      by (intros [] []; lia).
    etransitivity; [apply Hx'|]. etransitivity; [exact Hlt|apply Hy'].
Qed.

Lemma round_even_ge (k : Z) (y : Q) :
  (inject_Z k <= y)%Q -> k <= Binary64.round_even y.
Proof. intros H. rewrite <- (round_even_Z k). now apply round_even_mono. Qed.

Lemma round_even_le (k : Z) (y : Q) :
  (y <= inject_Z k)%Q -> Binary64.round_even y <= k.
Proof. intros H. rewrite <- (round_even_Z k). now apply round_even_mono. Qed.

Lemma ulp_pos (x : Q) : (0 < Binary64.ulp x)%Q.
Proof. apply pow2_pos. Qed.

Lemma ulp_comp (x y : Q) :
  (0 < x)%Q -> (x == y)%Q -> Binary64.ulp x = Binary64.ulp y.
Proof.
  intros Hx E. unfold Binary64.ulp. now rewrite (exponent_comp x y Hx E).
Qed.

Lemma round_pos_comp (x y : Q) :
  (0 < x)%Q -> (x == y)%Q -> Binary64.round_pos x = Binary64.round_pos y.
Proof.
  intros Hx E. unfold Binary64.round_pos.
  rewrite (ulp_comp x y Hx E).
  rewrite (round_even_comp (x / Binary64.ulp y) (y / Binary64.ulp y));
    [reflexivity|].
  now rewrite E.
Qed.

Lemma round_comp (x y : Q) : (x == y)%Q -> Binary64.round x = Binary64.round y.
Proof.
  intros E. unfold Binary64.round.
  rewrite (Qcompare_comp _ _ E _ _ (Qeq_refl 0)).
  destruct (Qcompare_spec y 0) as [H|H|H].
  - reflexivity.
  - f_equal. apply round_pos_comp; [lra|now rewrite E].
  - apply round_pos_comp; [lra|exact E].
Qed.

(** The scaled value lies below [2^53], and from [2^52] on for a
    normal number. *)
Lemma scaled_lt (x : Q) :
  (0 < x)%Q -> (x / Binary64.ulp x < inject_Z (2 ^ 53))%Q.
Proof.
  intros Hx. apply Qlt_shift_div_r; [apply ulp_pos|].
  rewrite <- pow2_Z by lia. unfold Binary64.ulp. rewrite <- pow2_add.
  destruct (exponent_spec x Hx) as [_ H].
  eapply Qlt_le_trans; [exact H|]. apply pow2_le. lia.
Qed.

Lemma scaled_ge (x : Q) :
  (0 < x)%Q -> -1022 <= Binary64.exponent x ->
  (inject_Z (2 ^ 52) <= x / Binary64.ulp x)%Q.
Proof.
  intros Hx He. apply Qle_shift_div_l; [apply ulp_pos|].
  rewrite <- pow2_Z by lia. unfold Binary64.ulp. rewrite <- pow2_add.
  destruct (exponent_spec x Hx) as [H _].
  eapply Qle_trans; [|exact H]. apply pow2_le. lia.
Qed.

Lemma round_pos_nonneg (x : Q) : (0 < x)%Q -> (0 <= Binary64.round_pos x)%Q.
Proof.
  intros Hx. unfold Binary64.round_pos.
  apply Qmult_le_0_compat; [|apply Qlt_le_weak, ulp_pos].
  change 0%Q with (inject_Z 0). rewrite <- Zle_Qle. apply round_even_ge.
  apply Qle_shift_div_l; [apply ulp_pos|]. change (inject_Z 0) with 0%Q. lra.
Qed.

Lemma round_pos_upper (x : Q) :
  (0 < x)%Q ->
  (Binary64.round_pos x <= 2 ^ (Z.max (Binary64.exponent x) (-1022) + 1))%Q.
Proof.
  intros Hx. unfold Binary64.round_pos.
  assert (2 ^ (Z.max (Binary64.exponent x) (-1022) + 1)
          == inject_Z (2 ^ 53) * Binary64.ulp x)%Q as ->.
  { rewrite <- pow2_Z by lia. unfold Binary64.ulp. rewrite <- pow2_add.
    now replace (53 + (Z.max (Binary64.exponent x) (-1022) - 52))
      with (Z.max (Binary64.exponent x) (-1022) + 1) by lia. }
  apply Qmult_le_compat_r; [|apply Qlt_le_weak, ulp_pos].
  rewrite <- Zle_Qle. apply round_even_le, Qlt_le_weak, scaled_lt, Hx.
Qed.

Lemma round_pos_lower (x : Q) :
  (0 < x)%Q -> -1022 <= Binary64.exponent x ->
  (2 ^ Binary64.exponent x <= Binary64.round_pos x)%Q.
Proof.
  intros Hx He. unfold Binary64.round_pos.
  assert (2 ^ Binary64.exponent x == inject_Z (2 ^ 52) * Binary64.ulp x)%Q as ->.
  { rewrite <- pow2_Z by lia. unfold Binary64.ulp. rewrite <- pow2_add.
    now replace (52 + (Z.max (Binary64.exponent x) (-1022) - 52))
      with (Binary64.exponent x) by lia. }
  apply Qmult_le_compat_r; [|apply Qlt_le_weak, ulp_pos].
  rewrite <- Zle_Qle. apply round_even_ge, scaled_ge; assumption.
Qed.

Lemma round_pos_error (x : Q) :
  (0 < x)%Q ->
  (x - Binary64.ulp x * (1 # 2) <= Binary64.round_pos x
   <= x + Binary64.ulp x * (1 # 2))%Q.
Proof.
  intros Hx. unfold Binary64.round_pos.
  pose proof (ulp_pos x) as Hu.
  pose proof (round_even_bounds (x / Binary64.ulp x)) as [B1 B2].
  assert (x == x / Binary64.ulp x * Binary64.ulp x)%Q as E by (field; lra).
  set (y := (x / Binary64.ulp x)%Q) in *.
  set (r := inject_Z (Binary64.round_even y)) in *.
  set (u := Binary64.ulp x) in *. clearbody y r u.
  rewrite E. split.
  - assert ((y - (1 # 2)) * u <= r * u)%Q
      by (apply Qmult_le_compat_r; lra).
    lra.
  - assert (r * u <= (y + (1 # 2)) * u)%Q
      by (apply Qmult_le_compat_r; lra).
    lra.
Qed.

Lemma round_pos_mono (x y : Q) :
  (0 < x)%Q -> (x <= y)%Q -> (Binary64.round_pos x <= Binary64.round_pos y)%Q.
Proof.
  intros Hx Hxy. assert (0 < y)%Q as Hy by lra.
  pose proof (exponent_mono x y Hx Hxy) as He.
  destruct (Z.eq_dec (Z.max (Binary64.exponent x) (-1022))
                     (Z.max (Binary64.exponent y) (-1022))) as [E|N].
  - unfold Binary64.round_pos.
    assert (Binary64.ulp x = Binary64.ulp y) as Eu
      by (unfold Binary64.ulp; now rewrite E).
    rewrite Eu. apply Qmult_le_compat_r; [|apply Qlt_le_weak, ulp_pos].
    rewrite <- Zle_Qle. apply round_even_mono.
    apply Qmult_le_compat_r; [exact Hxy|].
    apply Qlt_le_weak, Qinv_lt_0_compat, ulp_pos.
  - eapply Qle_trans; [apply round_pos_upper, Hx|].
    eapply Qle_trans; [|apply round_pos_lower; [exact Hy|lia]].
    apply pow2_le. lia.
Qed.

Lemma round_0 : Binary64.round 0 = 0%Q.
Proof. reflexivity. Qed.

Lemma round_opp (x : Q) : (Binary64.round (- x) == - Binary64.round x)%Q.
Proof.
  unfold Binary64.round.
  destruct (Qcompare_spec x 0) as [H|H|H];
    destruct (Qcompare_spec (- x) 0) as [H'|H'|H']; try (exfalso; lra).
  - reflexivity.
  - ring.
  - rewrite (round_pos_comp (- - x) x); [reflexivity|lra|ring].
Qed.

Lemma round_nonneg (x : Q) : (0 <= x)%Q -> (0 <= Binary64.round x)%Q.
Proof.
  intros Hx. unfold Binary64.round.
  destruct (Qcompare_spec x 0) as [H|H|H]; [lra|exfalso; lra|].
  now apply round_pos_nonneg.
Qed.

(** Rounding is monotone. *)
Lemma round_mono (x y : Q) :
  (x <= y)%Q -> (Binary64.round x <= Binary64.round y)%Q.
Proof.
  intros Hxy. unfold Binary64.round.
  destruct (Qcompare_spec x 0) as [Hx|Hx|Hx];
    destruct (Qcompare_spec y 0) as [Hy|Hy|Hy]; try (exfalso; lra); try lra.
  - now apply round_pos_nonneg.
  - assert (0 <= Binary64.round_pos (- x))%Q by (apply round_pos_nonneg; lra).
    lra.
  - assert (Binary64.round_pos (- y) <= Binary64.round_pos (- x))%Q
      by (apply round_pos_mono; lra).
    lra.
  - assert (0 <= Binary64.round_pos (- x))%Q by (apply round_pos_nonneg; lra).
    assert (0 <= Binary64.round_pos y)%Q by (now apply round_pos_nonneg).
    lra.
  - now apply round_pos_mono.
Qed.

(** A number with at most 53 significant bits, above the smallest
    exponent, is its own rounding. *)
Lemma round_exact (k p : Z) :
  0 <= k < 2 ^ 53 -> -1074 <= p ->
  (Binary64.round (inject_Z k * 2 ^ p) == inject_Z k * 2 ^ p)%Q.
Proof.
  intros Hk Hp. pose proof (pow2_pos p) as Pp.
  destruct (Z.eq_dec k 0) as [->|Hk0].
  { rewrite (round_comp _ 0%Q) by ring. rewrite round_0. ring. }
  assert (0 < k) as Hpos by lia.
  assert (0 < inject_Z k)%Q as Qk
    by (change 0%Q with (inject_Z 0); rewrite <- Zlt_Qlt; exact Hpos).
  assert (0 < inject_Z k * 2 ^ p)%Q as Hx
    by (apply Qmult_lt_0_compat; assumption).
  unfold Binary64.round.
  destruct (Qcompare_spec (inject_Z k * 2 ^ p) 0) as [H|H|H];
    [exfalso; lra|exfalso; lra|].
  pose proof (Z.log2_spec k Hpos) as [L1 L2].
  pose proof (Z.log2_nonneg k) as L0.
  assert (Z.log2 k <= 52) as L52.
  { destruct (Z_le_gt_dec (Z.log2 k) 52) as [?|G]; [assumption|exfalso].
    assert (2 ^ 53 <= 2 ^ Z.log2 k) by (apply Z.pow_le_mono_r; lia). lia. }
  assert (Binary64.exponent (inject_Z k * 2 ^ p) = Z.log2 k + p) as He.
  { apply exponent_unique.
    - rewrite pow2_add. apply Qmult_le_compat_r; [|lra].
      rewrite pow2_Z by lia. now rewrite <- Zle_Qle.
    - replace (Z.log2 k + p + 1) with (Z.succ (Z.log2 k) + p) by lia.
      rewrite pow2_add. apply Qmult_lt_compat_r; [lra|].
      rewrite pow2_Z by lia. now rewrite <- Zlt_Qlt. }
  unfold Binary64.round_pos, Binary64.ulp. rewrite He.
  set (e := Z.max (Z.log2 k + p) (-1022)).
  assert (0 <= p - (e - 52)) as Hs by (unfold e; lia).
  assert (inject_Z k * 2 ^ p / 2 ^ (e - 52)
          == inject_Z (k * 2 ^ (p - (e - 52))))%Q as Ey.
  { rewrite inject_Z_mult, <- pow2_Z by lia.
    replace p with ((p - (e - 52)) + (e - 52)) at 1 by lia.
    rewrite pow2_add. field. pose proof (pow2_pos (e - 52)). lra. }
  rewrite (round_even_comp _ _ Ey), round_even_Z.
  rewrite inject_Z_mult, <- pow2_Z by lia.
  rewrite <- Qmult_assoc, <- pow2_add.
  now replace (p - (e - 52) + (e - 52)) with p by lia.
Qed.

Lemma round_Z (n : Z) :
  0 <= n < 2 ^ 53 -> (Binary64.round (inject_Z n) == inject_Z n)%Q.
Proof.
  intros Hn. pose proof (round_exact n 0 Hn ltac:(lia)) as H.
  rewrite (round_comp _ (inject_Z n * 2 ^ 0)%Q) by (cbn; ring).
  rewrite H. cbn. ring.
Qed.

Lemma round_small_Z (n : Z) :
  0 <= n < 9007199254740992 ->
  (Binary64.round (inject_Z n) == inject_Z n)%Q.
Proof. exact (round_Z n). Qed.

Lemma round_half (k : Z) :
  0 <= k < 2 ^ 53 ->
  (Binary64.round (inject_Z k * (1 # 2)) == inject_Z k * (1 # 2))%Q.
Proof.
  intros Hk. pose proof (round_exact k (-1) Hk ltac:(lia)) as H.
  rewrite (round_comp _ (inject_Z k * 2 ^ (-1))%Q) by reflexivity.
  exact H.
Qed.

Lemma round_small_half (k : Z) :
  0 <= k < 9007199254740992 ->
  (Binary64.round (inject_Z k * (1 # 2)) == inject_Z k * (1 # 2))%Q.
Proof. exact (round_half k). Qed.

(** Below [2^13] the rounding error is at most [2^-41]. *)
Lemma round_error (x : Q) :
  (0 <= x)%Q -> (x < 8192)%Q ->
  (x - Spec.roundingError <= Binary64.round x <= x + Spec.roundingError)%Q.
Proof.
  intros H0 H1. unfold Binary64.round, Spec.roundingError.
  destruct (Qcompare_spec x 0) as [H|H|H]; [lra|exfalso; lra|].
  pose proof (round_pos_error x H) as [E1 E2].
  assert (Binary64.ulp x <= 1 # 1099511627776)%Q as Hu.
  { unfold Binary64.ulp.
    assert (Binary64.exponent x <= 12) as He.
    { destruct (Z_le_gt_dec (Binary64.exponent x) 12) as [?|G]; [assumption|].
      exfalso. destruct (exponent_spec x H) as [S1 _].
      assert (2 ^ 13 <= 2 ^ Binary64.exponent x)%Q as S2
        by (apply pow2_le; lia).
      change (2 ^ 13)%Q with 8192%Q in S2.
      set (t := (2 ^ Binary64.exponent x)%Q) in *. clearbody t. lra. }
    assert ((1 # 1099511627776) == 2 ^ (-40))%Q as -> by reflexivity.
    apply pow2_le. lia. }
  assert ((1 # 1099511627776) * (1 # 2) == 1 # 2199023255552)%Q as E by reflexivity.
  set (u := Binary64.ulp x) in *. clearbody u.
  set (a := (1 # 1099511627776)%Q) in *. set (b := (1 # 2199023255552)%Q) in *.
  clearbody a b. lra.
Qed.

(** ** The gap heuristic *)

Import CommitImport.

Lemma clampedGap_bounds (a b : Z) :
  (15 <= Spec.clampedGap a b <= 240)%Q.
Proof.
  unfold Spec.clampedGap.
  set (d := (inject_Z (b - a) / 60000)%Q).
  destruct (Q.min_spec (Qmax d 15) 240) as [[H ->]|[H ->]];
    destruct (Q.max_spec d 15) as [[H' E]|[H' E]]; rewrite ?E in *; lra.
Qed.

Lemma computedGap_bounds (a b : Z) :
  (15 <= Spec.computedGap a b <= 240)%Q.
Proof.
  unfold Spec.computedGap.
  set (d := Binary64.div _ _).
  destruct (Q.min_spec (Qmax d 15) 240) as [[H ->]|[H ->]];
    destruct (Q.max_spec d 15) as [[H' E]|[H' E]]; rewrite ?E in *; lra.
Qed.

(** Clamping does not increase a distance. *)
Lemma clamp_close (d g e : Q) :
  (g - e <= d <= g + e)%Q ->
  (Qmin (Qmax g 15) 240 - e <= Qmin (Qmax d 15) 240
   <= Qmin (Qmax g 15) 240 + e)%Q.
Proof.
  intros H.
  destruct (Q.min_spec (Qmax d 15) 240) as [[H1 ->]|[H1 ->]];
    destruct (Q.max_spec d 15) as [[H2 E2]|[H2 E2]]; rewrite ?E2 in *;
    destruct (Q.min_spec (Qmax g 15) 240) as [[H3 ->]|[H3 ->]];
    destruct (Q.max_spec g 15) as [[H4 E4]|[H4 E4]]; rewrite ?E4 in *;
    lra.
Qed.

(** The gap that the estimator computes is within one rounding error of
    the clamped gap. *)
Lemma computedGap_close (a b : Z) :
  a <= b ->
  (Spec.clampedGap a b - Spec.roundingError <= Spec.computedGap a b
   <= Spec.clampedGap a b + Spec.roundingError)%Q.
Proof.
  intros Hab. unfold Spec.computedGap, Spec.clampedGap, Binary64.div, Binary64.sub.
  assert (inject_Z b - inject_Z a == inject_Z (b - a))%Q as Ed.
  { unfold Z.sub. rewrite inject_Z_plus, inject_Z_opp. reflexivity. }
  rewrite (round_comp _ _ Ed).
  set (D := b - a) in *. assert (0 <= D) as HD by (unfold D; lia).
  clearbody D. clear Ed.
  assert (0 <= inject_Z D)%Q as QD
    by (change 0%Q with (inject_Z 0); now rewrite <- Zle_Qle).
  destruct (Z_lt_ge_dec D 491520000) as [Hsmall|Hbig].
  - assert (Binary64.round (inject_Z D) / 60000 == inject_Z D / 60000)%Q as E.
    { rewrite (round_small_Z D) by lia. reflexivity. }
    rewrite (round_comp _ _ E).
    apply clamp_close. apply round_error.
    + apply Qle_shift_div_l; [reflexivity|]. lra.
    + apply Qlt_shift_div_r; [reflexivity|].
      change (8192 * 60000)%Q with (inject_Z 491520000).
      now rewrite <- Zlt_Qlt.
  - assert (inject_Z 491520000 <= inject_Z D)%Q as QD'
      by (rewrite <- Zle_Qle; lia).
    assert (inject_Z 491520000 <= Binary64.round (inject_Z D))%Q as H1.
    { rewrite <- (round_small_Z 491520000) by lia. now apply round_mono. }
    assert (8192 <= Binary64.round (Binary64.round (inject_Z D) / 60000))%Q as H2.
    { change 8192%Q with (inject_Z 8192).
      rewrite <- (round_small_Z 8192) by lia. apply round_mono.
      apply Qle_shift_div_l; [reflexivity|].
      change (inject_Z 8192 * 60000)%Q with (inject_Z 491520000). exact H1. }
    assert (8192 <= inject_Z D / 60000)%Q as H3.
    { apply Qle_shift_div_l; [reflexivity|].
      change (8192 * 60000)%Q with (inject_Z 491520000). exact QD'. }
    set (d := Binary64.round (Binary64.round (inject_Z D) / 60000)) in *.
    set (g := (inject_Z D / 60000)%Q) in *. clearbody d g.
    unfold Spec.roundingError.
    destruct (Q.min_spec (Qmax d 15) 240) as [[H5 ->]|[H5 ->]];
      destruct (Q.max_spec d 15) as [[H6 E6]|[H6 E6]]; rewrite ?E6 in *;
      destruct (Q.min_spec (Qmax g 15) 240) as [[H7 ->]|[H7 ->]];
      destruct (Q.max_spec g 15) as [[H8 E8]|[H8 E8]]; rewrite ?E8 in *;
      lra.
Qed.

Lemma sumClampedGaps_cons (a b : Z) (rest : list Z) :
  Spec.sumClampedGaps (a :: b :: rest)
  = (Spec.clampedGap a b + Spec.sumClampedGaps (b :: rest))%Q.
Proof. reflexivity. Qed.

Lemma gapLoop_cons (c n : GitCommit.t) (rest : list GitCommit.t) (acc : Q) :
  gapLoop (c :: n :: rest) acc
  = gapLoop (n :: rest)
      (Binary64.add acc (Spec.computedGap (GitCommit.date c) (GitCommit.date n))).
Proof. reflexivity. Qed.

Lemma sumClampedGaps_nonneg (times : list Z) : (0 <= Spec.sumClampedGaps times)%Q.
Proof.
  induction times as [|a [|b rest] IH]; try (cbn; lra).
  rewrite sumClampedGaps_cons.
  pose proof (clampedGap_bounds a b). lra.
Qed.

(** The sum of the clamped gaps, by the number of consecutive pairs. *)
Lemma sumClampedGaps_range (times : list Z) :
  (15 * inject_Z (Z.of_nat (List.length (tl times)))
   <= Spec.sumClampedGaps times
   <= 240 * inject_Z (Z.of_nat (List.length (tl times))))%Q.
Proof.
  induction times as [|a [|b rest] IH].
  - cbn [List.length tl Spec.sumClampedGaps].
    change (inject_Z (Z.of_nat 0)) with 0%Q. lra.
  - cbn [List.length tl Spec.sumClampedGaps].
    change (inject_Z (Z.of_nat 0)) with 0%Q. lra.
  - rewrite sumClampedGaps_cons.
    pose proof (clampedGap_bounds a b) as [B1 B2].
    cbn [List.length tl] in *.
    rewrite Nat2Z.inj_succ. unfold Z.succ.
    rewrite inject_Z_plus. change (inject_Z 1) with 1%Q.
    set (n := inject_Z (Z.of_nat (List.length rest))) in *. clearbody n.
    set (s := Spec.sumClampedGaps (b :: rest)) in *. clearbody s.
    set (g := Spec.clampedGap a b) in *. clearbody g.
    lra.
Qed.

(** The clamped gaps are whole numbers of milliseconds. *)
Lemma sumClampedGaps_grid (times : list Z) :
  exists N : Z, (Spec.sumClampedGaps times == inject_Z N / 60000)%Q.
Proof.
  induction times as [|a [|b rest] IH].
  - exists 0. reflexivity.
  - exists 0. reflexivity.
  - rewrite sumClampedGaps_cons. destruct IH as (N & HN).
    unfold Spec.clampedGap.
    set (g := (inject_Z (b - a) / 60000)%Q).
    destruct (Q.min_spec (Qmax g 15) 240) as [[H E]|[H E]].
    + destruct (Q.max_spec g 15) as [[H' E']|[H' E']].
      * exists (900000 + N). rewrite E, E', HN, inject_Z_plus. field.
      * exists ((b - a) + N). rewrite E, E', HN, inject_Z_plus. unfold g. field.
    + exists (14400000 + N). rewrite E, HN, inject_Z_plus. field.
Qed.

Lemma gapLoop_nonneg (sorted : list GitCommit.t) (acc : Q) :
  (0 <= acc)%Q -> (0 <= gapLoop sorted acc)%Q.
Proof.
  revert acc. induction sorted as [|c [|n rest] IH]; intros acc Hacc;
    [exact Hacc..|].
  rewrite gapLoop_cons. apply IH. apply round_nonneg.
  pose proof (computedGap_bounds (GitCommit.date c) (GitCommit.date n)). lra.
Qed.

(** Every round of the loop adds at least 15 minutes, whatever the
    roundings, until 480 minutes are reached. *)
Lemma gapLoop_lower (sorted : list GitCommit.t) (m : Z) (acc : Q) :
  0 <= m <= 480 -> (inject_Z m <= acc)%Q ->
  (inject_Z (Z.min (m + 15 * Z.of_nat (List.length (tl sorted))) 480)
   <= gapLoop sorted acc)%Q.
Proof.
  revert m acc. induction sorted as [|c [|n rest] IH]; intros m acc Hm Hacc.
  - cbn [gapLoop List.length tl]. rewrite Z.min_l by lia.
    now replace (m + 15 * Z.of_nat 0) with m by lia.
  - cbn [gapLoop List.length tl]. rewrite Z.min_l by lia.
    now replace (m + 15 * Z.of_nat 0) with m by lia.
  - rewrite gapLoop_cons. cbn [List.length tl].
    pose proof (computedGap_bounds (GitCommit.date c) (GitCommit.date n))
      as [B1 B2].
    set (g := Spec.computedGap _ _) in *. clearbody g.
    assert (inject_Z (Z.min (m + 15) 480) <= Binary64.add acc g)%Q as Hstep.
    { apply Qle_trans with (inject_Z (m + 15)).
      - rewrite <- Zle_Qle. lia.
      - rewrite <- (round_small_Z (m + 15)) by lia. apply round_mono.
        rewrite inject_Z_plus. change (inject_Z 15) with 15%Q. lra. }
    specialize (IH (Z.min (m + 15) 480) (Binary64.add acc g) ltac:(lia) Hstep).
    cbn [List.length tl] in IH.
    eapply Qle_trans; [|exact IH]. rewrite <- Zle_Qle.
    rewrite Nat2Z.inj_succ. lia.
Qed.

(** The total that the loop accumulates stays within two rounding
    errors per gap of the sum of the clamped gaps, as long as it stays
    below [2^13] minutes. *)
Lemma gapLoop_close (sorted : list GitCommit.t) :
  StronglySorted (fun a b => GitCommit.date a <= GitCommit.date b) sorted ->
  forall acc A d : Q,
    (0 <= acc)%Q -> (0 <= d)%Q -> (A - d <= acc <= A + d)%Q ->
    (A + d + 241 * inject_Z (Z.of_nat (List.length (tl sorted))) <= 8191)%Q ->
    (A + Spec.sumClampedGaps (List.map GitCommit.date sorted)
     - (d + 2 * inject_Z (Z.of_nat (List.length (tl sorted)))
            * Spec.roundingError)
     <= gapLoop sorted acc
     <= A + Spec.sumClampedGaps (List.map GitCommit.date sorted)
        + (d + 2 * inject_Z (Z.of_nat (List.length (tl sorted)))
               * Spec.roundingError))%Q.
Proof.
  induction sorted as [|c [|n rest] IH]; intros Hsorted acc A d Hacc Hd HA Hroom.
  - cbn [gapLoop List.map Spec.sumClampedGaps List.length tl].
    change (inject_Z (Z.of_nat 0)) with 0%Q. lra.
  - cbn [gapLoop List.map Spec.sumClampedGaps List.length tl].
    change (inject_Z (Z.of_nat 0)) with 0%Q. lra.
  - rewrite gapLoop_cons. cbn [List.map]. rewrite sumClampedGaps_cons.
    assert (GitCommit.date c <= GitCommit.date n) as Hcn.
    { apply StronglySorted_inv in Hsorted. destruct Hsorted as [_ Hall].
      rewrite Forall_forall in Hall. apply Hall. now left. }
    apply StronglySorted_inv in Hsorted. destruct Hsorted as [Hsorted _].
    pose proof (computedGap_bounds (GitCommit.date c) (GitCommit.date n))
      as [B1 B2].
    pose proof (computedGap_close _ _ Hcn) as [C1 C2].
    pose proof (clampedGap_bounds (GitCommit.date c) (GitCommit.date n))
      as [G1 G2].
    set (fg := Spec.computedGap _ _) in *. clearbody fg.
    set (g := Spec.clampedGap _ _) in *. clearbody g.
    cbn [List.length tl] in Hroom |- *.
    rewrite Nat2Z.inj_succ in Hroom |- *. unfold Z.succ in Hroom |- *.
    rewrite inject_Z_plus in Hroom |- *.
    change (inject_Z 1) with 1%Q in Hroom |- *.
    assert (0 <= inject_Z (Z.of_nat (List.length rest)))%Q as Hlen.
    { change 0%Q with (inject_Z 0). rewrite <- Zle_Qle. lia. }
    set (k := inject_Z (Z.of_nat (List.length rest))) in *.
    assert (Spec.roundingError == 1 # 2199023255552)%Q as He by reflexivity.
    assert (acc + fg - Spec.roundingError <= Binary64.add acc fg
            <= acc + fg + Spec.roundingError)%Q as [R1 R2]
      by (apply round_error; lra).
    set (e := Spec.roundingError) in *. clearbody e.
    assert (0 <= Binary64.add acc fg)%Q as Hacc'
      by (apply round_nonneg; lra).
    specialize (IH Hsorted (Binary64.add acc fg) (A + g)%Q (d + 2 * e)%Q
                   Hacc' ltac:(lra) ltac:(lra)).
    cbn [List.length tl List.map] in IH. fold k in IH.
    clearbody k.
    specialize (IH ltac:(lra)).
    set (s := Spec.sumClampedGaps _) in *. clearbody s.
    set (r := gapLoop _ _) in *. clearbody r.
    lra.
Qed.

Lemma nearestHalf_round (x : Q) :
  Spec.nearestHalf x (inject_Z (JS.Math_round (x * 60 / 30)) * (1 # 2)).
Proof.
  unfold Spec.nearestHalf, JS.Math_round.
  set (y := (x * 60 / 30 + (1 # 2))%Q).
  pose proof (Qfloor_le y) as Hle. pose proof (Qlt_floor y) as Hlt.
  rewrite inject_Z_plus in Hlt. change (inject_Z 1) with 1%Q in Hlt.
  split; [exists (Qfloor y); reflexivity|].
  assert (y == 2 * x + (1 # 2))%Q as Ey by (unfold y; field).
  set (k := inject_Z (Qfloor y)) in *. clearbody k.
  rewrite Ey in Hle, Hlt. split; lra.
Qed.

Lemma sort_commits_sorted (commits : list GitCommit.t) :
  StronglySorted (fun a b => GitCommit.date a <= GitCommit.date b)
                 (JS.sort byCommitTime commits).
Proof.
  apply Sorted_StronglySorted; [intros a b c; lia|].
  eapply Sorted_impl; [|apply (sort_Sorted byCommitTime)].
  - unfold byCommitTime. intros a b. lia.
  - unfold byCommitTime. intros a b. lia.
Qed.

Lemma Qmin_comp_l (a a' b : Q) : (a == a')%Q -> (Qmin a b == Qmin a' b)%Q.
Proof.
  intros E.
  destruct (Q.min_spec a b) as [[H ->]|[H ->]];
    destruct (Q.min_spec a' b) as [[H' ->]|[H' ->]]; lra.
Qed.

(** The half hours that the estimator counts, for at most 33 gaps: a
    nearest integer to the exact number of half hours. *)
Lemma halfHours_small (sorted : list GitCommit.t) :
  StronglySorted (fun a b => GitCommit.date a <= GitCommit.date b) sorted ->
  (List.length (tl sorted) <= 33)%nat ->
  let x := ((Spec.sumClampedGaps (List.map GitCommit.date sorted) + 30) / 30)%Q in
  let k := JS.Math_round
             (Binary64.div (Binary64.add (gapLoop sorted 0) 30) 30) in
  0 <= k < 9007199254740992
  /\ (x - (1 # 2) <= inject_Z k <= x + (1 # 2))%Q.
Proof.
  intros Hsorted Hlen. cbv zeta.
  assert (0 <= inject_Z (Z.of_nat (List.length (tl sorted))) <= 33)%Q as Hn.
  { split.
    - change 0%Q with (inject_Z 0). rewrite <- Zle_Qle. lia.
    - change 33%Q with (inject_Z 33). rewrite <- Zle_Qle. lia. }
  pose proof (gapLoop_close sorted Hsorted 0 0 0
                ltac:(lra) ltac:(lra) ltac:(lra) ltac:(lra)) as [L1 L2].
  pose proof (gapLoop_nonneg sorted 0 ltac:(lra)) as L0.
  pose proof (sumClampedGaps_range (List.map GitCommit.date sorted)) as [S1 S2].
  destruct (sumClampedGaps_grid (List.map GitCommit.date sorted)) as (N & HN).
  assert (List.length (tl (List.map GitCommit.date sorted))
          = List.length (tl sorted)) as El
    by (destruct sorted; cbn [tl List.map]; [reflexivity|apply length_map]).
  rewrite El in S1, S2.
  set (n := inject_Z (Z.of_nat (List.length (tl sorted)))) in *. clearbody n.
  set (s := Spec.sumClampedGaps _) in *. clearbody s.
  set (R := gapLoop sorted 0) in *. clearbody R.
  assert (Spec.roundingError == 1 # 2199023255552)%Q as He by reflexivity.
  assert (0 <= 2 * n * Spec.roundingError <= 66 * Spec.roundingError)%Q as Hne.
  { split.
    - apply Qmult_le_0_compat; [lra|discriminate].
    - apply Qmult_le_compat_r; [lra|discriminate]. }
  set (ne := (2 * n * Spec.roundingError)%Q) in *. clearbody ne.
  assert (R + 30 - Spec.roundingError <= Binary64.add R 30
          <= R + 30 + Spec.roundingError)%Q as [T1 T2]
    by (apply round_error; lra).
  assert (0 <= Binary64.add R 30)%Q as T0 by (apply round_nonneg; lra).
  set (T := Binary64.add R 30) in *. clearbody T.
  assert (T / 30 == T * (1 # 30))%Q as Ediv by field.
  assert (T / 30 - Spec.roundingError <= Binary64.div T 30
          <= T / 30 + Spec.roundingError)%Q as [Q1 Q2]
    by (apply round_error; lra).
  assert (0 <= Binary64.div T 30)%Q as Q0 by (apply round_nonneg; lra).
  set (q := Binary64.div T 30) in *. clearbody q.
  set (e := Spec.roundingError) in *. clearbody e.
  unfold JS.Math_round.
  pose proof (Qfloor_le (q + (1 # 2))) as F1.
  pose proof (Qlt_floor (q + (1 # 2))) as F2.
  rewrite inject_Z_plus in F2. change (inject_Z 1) with 1%Q in F2.
  set (k := Qfloor (q + (1 # 2))) in *.
  assert (0 <= k) as K0.
  { unfold k. change 0 with (Qfloor 0). apply Qfloor_resp_le. lra. }
  clearbody k.
  assert ((s + 30) / 30 == (s + 30) * (1 # 30))%Q as Ex by field.
  rewrite Ex.
  assert (inject_Z N / 60000 == inject_Z N * (1 # 60000))%Q as EN by field.
  rewrite EN in HN.
  (* the distance of [k] to the exact value, in units of 1/1800000 *)
  assert (inject_Z (k * 1800000 - (N + 1800000))
          == inject_Z k * 1800000 - (s + 30) * 60000)%Q as ED.
  { unfold Z.sub. rewrite inject_Z_plus, inject_Z_opp, inject_Z_mult,
      inject_Z_plus.
    change (inject_Z 1800000) with 1800000%Q. rewrite HN. ring. }
  assert (inject_Z (k * 1800000 - (N + 1800000)) < inject_Z 900001)%Q as DU.
  { rewrite ED. change (inject_Z 900001) with 900001%Q. lra. }
  assert (inject_Z (- 900001) < inject_Z (k * 1800000 - (N + 1800000)))%Q as DL.
  { rewrite ED. change (inject_Z (- 900001)) with (- 900001)%Q. lra. }
  rewrite <- Zlt_Qlt in DU, DL.
  assert (inject_Z (k * 1800000 - (N + 1800000)) <= inject_Z 900000)%Q as DU'
    by (rewrite <- Zle_Qle; lia).
  assert (inject_Z (- 900000) <= inject_Z (k * 1800000 - (N + 1800000)))%Q as DL'
    by (rewrite <- Zle_Qle; lia).
  rewrite ED in DU', DL'.
  change (inject_Z 900000) with 900000%Q in DU'.
  change (inject_Z (- 900000)) with (- 900000)%Q in DL'.
  split; [|split; lra].
  split; [exact K0|].
  rewrite Zlt_Qlt. change (inject_Z 9007199254740992) with 9007199254740992%Q.
  lra.
Qed.

(** From 34 gaps on the estimator counts 17 half hours or more, and the
    cap decides. *)
Lemma halfHours_large (sorted : list GitCommit.t) :
  (34 <= List.length (tl sorted))%nat ->
  (8 < Binary64.mul
         (inject_Z (JS.Math_round
                      (Binary64.div (Binary64.add (gapLoop sorted 0) 30) 30)))
         (1 # 2))%Q.
Proof.
  intros Hlen.
  pose proof (gapLoop_lower sorted 0 0 ltac:(lia) (Qle_refl 0)) as L.
  rewrite Z.min_r in L by lia. change (inject_Z 480) with 480%Q in L.
  set (R := gapLoop sorted 0) in *. clearbody R.
  assert (510 <= Binary64.add R 30)%Q as HT.
  { change 510%Q with (inject_Z 510).
    rewrite <- (round_small_Z 510) by lia. apply round_mono.
    change (inject_Z 510) with 510%Q. lra. }
  set (T := Binary64.add R 30) in *. clearbody T.
  assert (17 <= Binary64.div T 30)%Q as Hq.
  { change 17%Q with (inject_Z 17).
    rewrite <- (round_small_Z 17) by lia. apply round_mono.
    apply Qle_shift_div_l; [reflexivity|].
    change (inject_Z 17 * 30)%Q with 510%Q. exact HT. }
  set (q := Binary64.div T 30) in *. clearbody q.
  unfold JS.Math_round.
  assert (17 <= Qfloor (q + (1 # 2))) as Hk.
  { change 17 with (Qfloor 17). apply Qfloor_resp_le. lra. }
  set (k := Qfloor (q + (1 # 2))) in *. clearbody k.
  apply Qlt_le_trans with (inject_Z 17 * (1 # 2))%Q; [reflexivity|].
  rewrite <- (round_small_half 17) by lia. apply round_mono.
  apply Qmult_le_compat_r; [|discriminate].
  now rewrite <- Zle_Qle.
Qed.

(** The estimate of two or more commits. *)
Lemma calculateHours_gaps (commits : list GitCommit.t) :
  (2 <= List.length commits)%nat ->
  Spec.gapEstimate commits (calculateHours commits).
Proof.
  intros Hlen.
  destruct commits as [|c1 [|c2 rest]]; simpl in Hlen; try lia.
  unfold calculateHours. cbv zeta.
  set (commits := c1 :: c2 :: rest).
  pose proof (sort_commits_sorted commits) as Hsorted.
  pose proof (sort_Permutation byCommitTime commits) as Hperm.
  set (sorted := JS.sort byCommitTime commits) in *.
  unfold Spec.gapEstimate.
  destruct (le_gt_dec (List.length (tl sorted)) 33) as [Hsmall|Hlarge].
  - destruct (halfHours_small sorted Hsorted Hsmall) as (Hk & Hx1 & Hx2).
    cbv zeta in Hk, Hx1, Hx2.
    set (k := JS.Math_round _) in *.
    exists sorted, (inject_Z k * (1 # 2))%Q.
    split; [exact Hperm|]. split; [exact Hsorted|]. split.
    + split; [exists k; reflexivity|].
      set (s := Spec.sumClampedGaps _) in *. clearbody s.
      assert ((s + 30) / 30 == (s + 30) * (1 # 30))%Q as E1 by field.
      assert ((s + 30) / 60 == (s + 30) * (1 # 60))%Q as E2 by field.
      rewrite E1 in Hx1, Hx2. rewrite E2.
      set (z := inject_Z k) in *. clearbody z. split; lra.
    + apply Qmin_comp_l. unfold Binary64.mul. now apply round_small_half.
  - pose proof (halfHours_large sorted ltac:(lia)) as Hcap.
    set (h := Binary64.mul _ _) in *. clearbody h.
    set (x := ((Spec.sumClampedGaps (List.map GitCommit.date sorted) + 30) / 60)%Q).
    exists sorted, (inject_Z (JS.Math_round (x * 60 / 30)) * (1 # 2))%Q.
    split; [exact Hperm|]. split; [exact Hsorted|].
    split; [apply nearestHalf_round|].
    destruct (nearestHalf_round x) as (_ & Hlo & _).
    set (r := (inject_Z (JS.Math_round (x * 60 / 30)) * (1 # 2))%Q) in *.
    clearbody r.
    pose proof (sumClampedGaps_range (List.map GitCommit.date sorted)) as [S1 _].
    assert (List.length (tl (List.map GitCommit.date sorted))
            = List.length (tl sorted)) as El
      by (destruct sorted; cbn [tl List.map]; [reflexivity|apply length_map]).
    rewrite El in S1.
    assert (34 <= inject_Z (Z.of_nat (List.length (tl sorted))))%Q as Hn.
    { change 34%Q with (inject_Z 34). rewrite <- Zle_Qle. lia. }
    set (n := inject_Z (Z.of_nat (List.length (tl sorted)))) in *. clearbody n.
    assert (x == (Spec.sumClampedGaps (List.map GitCommit.date sorted) + 30)
                 * (1 # 60))%Q as Ex by (unfold x; field).
    set (s := Spec.sumClampedGaps _) in *. clearbody s. clearbody x.
    destruct (Q.min_spec h 8) as [[H1 ->]|[H1 ->]]; [exfalso; lra|].
    destruct (Q.min_spec r 8) as [[H2 ->]|[H2 ->]]; [exfalso; lra|].
    reflexivity.
Qed.

(** The estimate of two commits depends on their distance only. *)
Lemma calculateHours_pair (c1 c2 : GitCommit.t) (gap : Z) :
  0 <= gap -> GitCommit.date c2 = GitCommit.date c1 + gap ->
  calculateHours [c1; c2]
  = calculateHours [Spec.sampleCommit 0 "X"; Spec.sampleCommit gap "X"].
Proof.
  intros Hgap Hdate. unfold calculateHours. cbv zeta.
  assert (JS.sort byCommitTime [c1; c2] = [c1; c2]) as ->.
  { cbn [JS.sort fold_right JS.insert]. unfold byCommitTime.
    destruct (0 <? GitCommit.date c1 - GitCommit.date c2) eqn:E; [|reflexivity].
    apply Z.ltb_lt in E. lia. }
  assert (JS.sort byCommitTime
            [Spec.sampleCommit 0 "X"; Spec.sampleCommit gap "X"]
          = [Spec.sampleCommit 0 "X"; Spec.sampleCommit gap "X"]) as ->.
  { cbn [JS.sort fold_right JS.insert]. unfold byCommitTime.
    cbn [Spec.sampleCommit GitCommit.date].
    destruct (0 <? 0 - gap) eqn:E; [|reflexivity].
    apply Z.ltb_lt in E. lia. }
  rewrite !gapLoop_cons. cbn [gapLoop].
  assert (Spec.computedGap (GitCommit.date c1) (GitCommit.date c2)
          = Spec.computedGap
              (GitCommit.date (Spec.sampleCommit 0 "X"))
              (GitCommit.date (Spec.sampleCommit gap "X"))) as ->;
    [|reflexivity].
  unfold Spec.computedGap, Binary64.sub. cbn [Spec.sampleCommit GitCommit.date].
  rewrite Hdate.
  rewrite (round_comp (inject_Z (GitCommit.date c1 + gap)
                       - inject_Z (GitCommit.date c1))
                      (inject_Z gap - inject_Z 0)); [reflexivity|].
  rewrite inject_Z_plus. ring.
Qed.

(** ** Ranges of the hour values *)

Lemma tableValue_spec (step top q : Q) :
  0 < Qnum step -> Spec.tableValue step top q = true ->
  (step <= q <= top)%Q /\ Spec.multipleOf step q.
Proof.
  unfold Spec.tableValue, Spec.multipleOf.
  rewrite !andb_true_iff, !Qle_bool_iff, Z.eqb_eq.
  intros Hstep [[H1 H2] Hmod]. split; [split; assumption|].
  destruct q as [n d], step as [a b]. cbn [Qnum Qden] in *.
  exists (n * Z.pos b / (a * Z.pos d)).
  unfold Qeq, inject_Z, Qmult. cbn [Qnum Qden].
  apply Z.mod_divide in Hmod; [|lia]. destruct Hmod as [k Hk].
  rewrite Hk, Z.div_mul by lia.
  rewrite Pos.mul_1_l. lia.
Qed.

Lemma table_values (table : JS.MapOf Q) (step top : Q) (c : string) (h : Q) :
  0 < Qnum step ->
  forallb (fun kv => Spec.tableValue step top (snd kv)) table = true ->
  JS.map_get c table = Some h ->
  (step <= h <= top)%Q /\ Spec.multipleOf step h.
Proof.
  intros Hstep Hall Hget. apply tableValue_spec; [assumption|].
  rewrite forallb_forall in Hall.
  apply (Hall (c, h)), map_get_In, Hget.
Qed.

Lemma object_get_None (table : JS.MapOf Q) (c : string) :
  JS.object_get c table = None -> ~ In c JS.Object_prototype.
Proof.
  unfold JS.object_get. destruct (JS.map_get c table); [discriminate|].
  destruct (existsb (String.eqb c) JS.Object_prototype) eqn:E; [discriminate|].
  intros _ Hin.
  assert (existsb (String.eqb c) JS.Object_prototype = true) as E'
    by (apply existsb_exists; exists c; split; [exact Hin|apply String.eqb_refl]).
  congruence.
Qed.

Section DecoderLoop.
Variable table : JS.MapOf Q.
Variable loop : list (string * bool) -> option TimeParser.CategoryHours.
Variable result : string -> JS.value -> TimeParser.CategoryHours.
Hypothesis loop_cons :
  forall c b rest,
    loop ((c, b) :: rest)
    = match (if b then JS.object_get c table else None) with
      | Some h => Some (result c h)
      | None => loop rest
      end.
Hypothesis loop_nil : loop [] = None.

Lemma loop_Some (categories : list (string * bool))
    (r : TimeParser.CategoryHours) :
  loop categories = Some r ->
  exists c v, In (c, true) categories
              /\ JS.object_get c table = Some v /\ r = result c v.
Proof.
  induction categories as [|[c b] rest IH]; [congruence|].
  rewrite loop_cons.
  destruct (if b then JS.object_get c table else None) as [h|] eqn:E.
  - intros [= <-]. exists c, h. destruct b; [|discriminate].
    split; [now left|]. split; [assumption|reflexivity].
  - intros H. destruct (IH H) as (c' & v & Hin & Hget & Hr).
    exists c', v. split; [now right|]. split; assumption.
Qed.

Lemma loop_None (categories : list (string * bool)) :
  loop categories = None ->
  forall c, In (c, true) categories -> JS.object_get c table = None.
Proof.
  induction categories as [|[c b] rest IH]; [intros _ c []|].
  rewrite loop_cons.
  destruct (if b then JS.object_get c table else None) as [h|] eqn:E;
    [discriminate|].
  intros H c' [Hc|Hc].
  - injection Hc as -> ->. exact E.
  - now apply IH.
Qed.
End DecoderLoop.

Lemma calculateHours_range (commits : list GitCommit.t) :
  (0 <= calculateHours commits <= 8)%Q
  /\ Spec.multipleOf (1 # 2) (calculateHours commits).
Proof.
  destruct commits as [|c1 [|c2 rest]].
  - split; [cbn; lra|]. exists 0. reflexivity.
  - split; [cbn; lra|]. exists 4. reflexivity.
  - destruct (calculateHours_gaps (c1 :: c2 :: rest)) as (sorted & r & H);
      [simpl; lia|].
    destruct H as (_ & _ & ((k & Hk) & Hlo & _) & Heq).
    pose proof (sumClampedGaps_nonneg (List.map GitCommit.date sorted)) as Hsum.
    set (s := Spec.sumClampedGaps _) in *. clearbody s.
    assert ((s + 30) / 60 == (s + 30) * (1 # 60))%Q as E by field.
    rewrite E in Hlo.
    set (h := calculateHours (c1 :: c2 :: rest)) in *. clearbody h.
    destruct (Q.min_spec r 8) as [[Hlt Hmin]|[Hge Hmin]]; rewrite Hmin in Heq.
    + split; [lra|]. exists k. now rewrite Heq.
    + split; [lra|]. exists 16. rewrite Heq. reflexivity.
Qed.

(** C1, as the code has it: an hour value that the decoder takes from
    the category table lies in [[0.5, 8]] and is a multiple of 0.5,
    unless the identifier names a member of [Object.prototype], which
    is then returned in the place of a number; one that it takes from
    the direct-hour table lies in [[0.25, 12]] and is a multiple of
    0.25; an estimate of the commit hour estimator lies in [[0, 8]] and
    is a multiple of 0.5. *)
Theorem hour_values_range :
  (forall categories r,
      TimeParser.categoryLoop categories = Some r ->
      TimeParser.parseHoursFromCategories categories = Some r
      /\ match TimeParser.hours r with
         | JS.Num q => ((1 # 2) <= q <= 8)%Q /\ Spec.multipleOf (1 # 2) q
         | JS.Member name =>
             In name JS.Object_prototype /\ In (name, true) categories
         | JS.Str _ => False
         end)
  /\ (forall categories r,
        TimeParser.categoryLoop categories = None ->
        TimeParser.parseHoursFromCategories categories = Some r ->
        exists q, TimeParser.hours r = JS.Num q
                  /\ ((1 # 4) <= q <= 12)%Q /\ Spec.multipleOf (1 # 4) q)
  /\ (forall commits,
        (0 <= calculateHours commits <= 8)%Q
        /\ Spec.multipleOf (1 # 2) (calculateHours commits)).
Proof.
  split; [|split; [|exact calculateHours_range]].
  - intros categories r H.
    split; [unfold TimeParser.parseHoursFromCategories; now rewrite H|].
    apply (loop_Some TimeParser.CATEGORY_HOURS_MAP TimeParser.categoryLoop
             (fun c h => TimeParser.mkCategoryHours
                           h c (TimeParser.getCategoryDisplayLabel c)))
      in H; [|reflexivity..].
    destruct H as (c & v & Hin & Hget & ->). cbn [TimeParser.hours].
    apply object_get_inv in Hget.
    destruct Hget as [(h & Hget & ->)|(_ & Hproto & ->)].
    + apply (table_values TimeParser.CATEGORY_HOURS_MAP (1 # 2) 8 c h);
        [reflexivity | vm_compute; reflexivity | assumption].
    + split; assumption.
  - intros categories r Hnone H.
    unfold TimeParser.parseHoursFromCategories in H. rewrite Hnone in H.
    apply (loop_Some TimeParser.DIRECT_HOURS_MAP TimeParser.directLoop
             (fun c h => TimeParser.mkCategoryHours h c c))
      in H; [|reflexivity..].
    destruct H as (c & v & Hin & Hget & ->). cbn [TimeParser.hours].
    apply object_get_inv in Hget.
    destruct Hget as [(h & Hget & ->)|(_ & Hproto & ->)].
    + exists h. split; [reflexivity|].
      apply (table_values TimeParser.DIRECT_HOURS_MAP (1 # 4) 12 c h);
        [reflexivity | vm_compute; reflexivity | assumption].
    + exfalso.
      apply (object_get_None TimeParser.CATEGORY_HOURS_MAP c); [|exact Hproto].
      apply (loop_None TimeParser.CATEGORY_HOURS_MAP TimeParser.categoryLoop
               (fun c h => TimeParser.mkCategoryHours
                             h c (TimeParser.getCategoryDisplayLabel c)))
        with (categories := categories); [reflexivity|exact Hnone|exact Hin].
Qed.

Lemma hour_values_range_witness :
  (TimeParser.parseHoursFromCategories [("category4", true)]
   = Some (TimeParser.mkCategoryHours (JS.Num 3) "category4" "3h")
   /\ ((1 # 2) <= 3 <= 8)%Q /\ Spec.multipleOf (1 # 2) 3)
  /\ (TimeParser.parseHoursFromCategories [("constructor", true)]
      = Some (TimeParser.mkCategoryHours
                (JS.Member "constructor") "constructor"
                "function Object() { [native code] }h")
      /\ In "constructor" JS.Object_prototype)
  /\ (exists q,
         TimeParser.hours (TimeParser.mkCategoryHours (JS.Num 12) "12h" "12h")
         = JS.Num q
         /\ ((1 # 4) <= q <= 12)%Q /\ Spec.multipleOf (1 # 4) q).
Proof.
  split; [|split].
  - destruct (proj1 hour_values_range [("category4", true)]
                (TimeParser.mkCategoryHours (JS.Num 3) "category4" "3h")
                eq_refl) as (H1 & H2 & H3).
    split; [exact H1|]. split; assumption.
  - destruct (proj1 hour_values_range [("constructor", true)]
                (TimeParser.mkCategoryHours
                   (JS.Member "constructor") "constructor"
                   "function Object() { [native code] }h")
                eq_refl) as (H1 & H2 & _).
    split; assumption.
  - apply (proj1 (proj2 hour_values_range) [("12h", true)]
             (TimeParser.mkCategoryHours (JS.Num 12) "12h" "12h"));
      reflexivity.
Defined.

(** C1 as stated fails: the direct-hour table holds values above 8
    hours and values finer than half an hour, and the lookup in the
    category table also finds the members of [Object.prototype]. *)
Lemma decoder_hours_outside_range :
  TimeParser.parseHoursFromCategories [("12h", true)]
  = Some (TimeParser.mkCategoryHours (JS.Num 12) "12h" "12h")
  /\ ~ (12 <= 8)%Q
  /\ TimeParser.parseHoursFromCategories [("15m", true)]
     = Some (TimeParser.mkCategoryHours (JS.Num (1 # 4)) "15m" "15m")
  /\ ~ Spec.multipleOf (1 # 2) (1 # 4)
  /\ option_map TimeParser.hours
       (TimeParser.parseHoursFromCategories [("valueOf", true)])
     = Some (JS.Member "valueOf").
Proof.
  split; [reflexivity|]. split; [intros H; vm_compute in H; congruence|].
  split; [reflexivity|]. split; [|reflexivity].
  intros [k Hk]. unfold Qeq, inject_Z, Qmult in Hk. cbn in Hk. lia.
Qed.

(** ** Draft entries *)

Lemma freeOf_app (sep : ascii) (s1 s2 : string) :
  Spec.freeOf sep (s1 ++ s2) = Spec.freeOf sep s1 && Spec.freeOf sep s2.
Proof.
  unfold Spec.freeOf. now rewrite list_ascii_of_string_app, forallb_app.
Qed.

Lemma split_on_free (sep : ascii) (s : string) :
  Spec.freeOf sep s = true -> JS.split_on sep s = [s].
Proof.
  unfold Spec.freeOf. induction s as [|c s IH]; cbn; [reflexivity|].
  destruct (Ascii.eqb c sep); cbn; [discriminate|].
  intros H. now rewrite IH.
Qed.

Lemma split_on_app (sep : ascii) (s1 s2 : string) :
  Spec.freeOf sep s1 = true ->
  JS.split_on sep (s1 ++ String sep s2) = s1 :: JS.split_on sep s2.
Proof.
  unfold Spec.freeOf. induction s1 as [|c s1 IH]; cbn.
  - intros _. now rewrite Ascii.eqb_refl.
  - destruct (Ascii.eqb c sep); cbn; [discriminate|].
    intros H. now rewrite IH.
Qed.

Lemma string_of_uint_free (d : Decimal.uint) :
  Spec.freeOf "_" (NilEmpty.string_of_uint d) = true.
Proof. induction d; cbn; auto. Qed.

Lemma string_of_Z_free (n : Z) : Spec.freeOf "_" (JS.string_of_Z n) = true.
Proof.
  unfold JS.string_of_Z, NilZero.string_of_int, NilZero.string_of_uint.
  destruct (Z.to_int n) as [d|d]; destruct d;
    try reflexivity; apply string_of_uint_free.
Qed.

Lemma addLeadingZeros_free (n : Z) (w : nat) :
  Spec.freeOf "_" (addLeadingZeros n w) = true.
Proof.
  unfold addLeadingZeros, JS.padStart0. cbv zeta.
  rewrite !freeOf_app, string_of_Z_free, andb_true_r.
  apply andb_true_iff. split; [now destruct (n <? 0)|].
  unfold Spec.freeOf. rewrite list_ascii_of_string_of_list_ascii.
  induction (w - String.length (JS.string_of_Z (Z.abs n)))%nat; cbn; auto.
Qed.

Lemma format_ymd_free (t : Z) : Spec.freeOf "_" (format_ymd t) = true.
Proof.
  unfold format_ymd, format_yyyy, format_MM, format_dd. cbv zeta.
  rewrite !freeOf_app, !addLeadingZeros_free. reflexivity.
Qed.

Lemma In_map_get {V : Type} (m : JS.MapOf V) (k : string) (v : V) :
  NoDup (JS.map_keys m) -> In (k, v) m -> JS.map_get k m = Some v.
Proof.
  induction m as [|[k' v'] m IH]; cbn; intros Hnd Hin; [destruct Hin|].
  inversion Hnd as [|? ? Hnotin Hnd']; subst.
  destruct Hin as [[= -> ->]|Hin].
  - now rewrite String.eqb_refl.
  - destruct (String.eqb_spec k' k) as [->|_]; [|auto].
    exfalso. apply Hnotin. apply (in_map fst) in Hin. exact Hin.
Qed.

(** Every produced draft entry comes from one group of the [Map], and
    its commits are the commits of the key of that group. *)
Lemma processCommits_inv (repos : list Repo.t) (commitsList : list GitCommit.t)
    (e : DraftEntry.t) :
  In e (processCommits repos commitsList) ->
  exists key repoCommits,
    e = draftEntry repos (key, repoCommits)
    /\ repoCommits <> []
    /\ repoCommits
       = filter (fun c => String.eqb (commitKey c) key) commitsList.
Proof.
  unfold processCommits. cbv zeta. rewrite sort_In, in_map_iff.
  intros ([key repoCommits] & <- & Hin).
  exists key, repoCommits. split; [reflexivity|].
  apply In_map_get in Hin; [|apply group_keys_NoDup].
  unfold groupCommits in Hin. rewrite group_get in Hin.
  destruct (filter _ commitsList) eqn:E; [discriminate|].
  injection Hin as <-. split; [discriminate|reflexivity].
Qed.

(** The repo that a draft entry reads back from its key. *)
Lemma draftEntry_repo (repos : list Repo.t) (c : GitCommit.t)
    (repoCommits : list GitCommit.t) :
  DraftEntry.repo (draftEntry repos (commitKey c, repoCommits))
  = hd "" (JS.split_on "_" (GitCommit.repo c)).
Proof.
  unfold draftEntry, commitKey. cbv zeta. cbn [DraftEntry.repo].
  change ("_" ++ GitCommit.repo c)%string with (String "_" (GitCommit.repo c)).
  rewrite split_on_app by apply format_ymd_free.
  cbn [nth]. now destruct (JS.split_on "_" (GitCommit.repo c)).
Qed.

Lemma draftEntry_hours (repos : list Repo.t) (key : string)
    (repoCommits : list GitCommit.t) :
  DraftEntry.hours (draftEntry repos (key, repoCommits))
  = let repo := DraftEntry.repo (draftEntry repos (key, repoCommits)) in
    match find (fun r => String.eqb (Repo.name r) repo) repos with
    | Some cfg =>
        if Repo.autoCalculate cfg then calculateHours repoCommits
        else JS.number_or (Some (Repo.defaultHours cfg)) 2
    | None => 2%Q
    end.
Proof.
  unfold draftEntry. cbv zeta. cbn [DraftEntry.hours DraftEntry.repo].
  now destruct (find _ repos).
Qed.

(** C8, as the code has it: for a commit group whose repo name holds no
    underscore and whose repo is configured with [autoCalculate] false,
    the estimated hours of the draft entry are the configured
    [defaultHours], unclamped, when that is not zero, and 2 when it is
    zero. *)
Theorem processCommits_default_hours (repos : list Repo.t)
    (commitsList : list GitCommit.t) (e : DraftEntry.t) (c : GitCommit.t)
    (cfg : Repo.t) :
  In e (processCommits repos commitsList) ->
  In c (DraftEntry.commits e) ->
  Spec.freeOf "_" (GitCommit.repo c) = true ->
  find (fun r => String.eqb (Repo.name r) (GitCommit.repo c)) repos = Some cfg ->
  Repo.autoCalculate cfg = false ->
  (~ (Repo.defaultHours cfg == 0)%Q ->
   DraftEntry.hours e = Repo.defaultHours cfg)
  /\ ((Repo.defaultHours cfg == 0)%Q -> DraftEntry.hours e = 2%Q).
Proof.
  intros He Hc Hfree Hfind Hauto.
  apply processCommits_inv in He.
  destruct He as (key & repoCommits & -> & _ & Hgroup).
  assert (key = commitKey c) as ->.
  { cbn [draftEntry DraftEntry.commits] in Hc.
    unfold draftEntry in Hc. cbn [DraftEntry.commits] in Hc.
    rewrite Hgroup in Hc. apply filter_In in Hc.
    symmetry. apply String.eqb_eq, Hc. }
  rewrite draftEntry_hours. cbv zeta.
  rewrite draftEntry_repo, (split_on_free _ _ Hfree). cbn [hd].
  rewrite Hfind, Hauto. unfold JS.number_or.
  destruct (Qeq_bool (Repo.defaultHours cfg) 0) eqn:E.
  - apply Qeq_bool_iff in E. split; [contradiction|reflexivity].
  - apply Qeq_bool_neq in E. split; [reflexivity|contradiction].
Qed.

Lemma processCommits_default_hours_witness :
  DraftEntry.hours
    (draftEntry [Spec.sampleRepo "X" false (3 # 2)]
       ("2024-03-10_X", [Spec.sampleCommit Spec.sampleTime "X"]))
  = 3 # 2.
Proof.
  apply (processCommits_default_hours
           [Spec.sampleRepo "X" false (3 # 2)]
           [Spec.sampleCommit Spec.sampleTime "X"]
           (draftEntry [Spec.sampleRepo "X" false (3 # 2)]
              ("2024-03-10_X", [Spec.sampleCommit Spec.sampleTime "X"]))
           (Spec.sampleCommit Spec.sampleTime "X")
           (Spec.sampleRepo "X" false (3 # 2))).
  - vm_compute. left. reflexivity.
  - simpl. left. reflexivity.
  - reflexivity.
  - reflexivity.
  - reflexivity.
  - vm_compute. discriminate.
Defined.

(** C8 as stated fails: a configured default of 0 hours is not used;
    the draft entry gets 2 hours. *)
Lemma processCommits_zero_default :
  exists e,
    processCommits [Spec.sampleRepo "X" false 0]
                   [Spec.sampleCommit Spec.sampleTime "X"] = [e]
    /\ DraftEntry.repo e = "X"
    /\ find (fun r => String.eqb (Repo.name r) "X") [Spec.sampleRepo "X" false 0]
       = Some (Spec.sampleRepo "X" false 0)
    /\ Repo.autoCalculate (Spec.sampleRepo "X" false 0) = false
    /\ DraftEntry.hours e = 2%Q
    /\ ~ (DraftEntry.hours e == Repo.defaultHours (Spec.sampleRepo "X" false 0))%Q.
Proof.
  eexists. split; [vm_compute; reflexivity|]. cbn.
  repeat (split; [reflexivity|]). discriminate.
Qed.

(** C9 at a repo whose name holds an underscore: the commits are
    grouped under their own repo, but the draft entry names the repo
    by the part of the name before the underscore. *)
Theorem processCommits_repo_with_underscore :
  exists e,
    processCommits [Spec.sampleRepo "my_repo" true 2]
                   [Spec.sampleCommit Spec.sampleTime "my_repo"] = [e]
    /\ DraftEntry.commits e = [Spec.sampleCommit Spec.sampleTime "my_repo"]
    /\ DraftEntry.id e = "2024-03-10_my_repo"
    /\ DraftEntry.repo e = "my"
    /\ DraftEntry.repo e
       <> GitCommit.repo (Spec.sampleCommit Spec.sampleTime "my_repo").
Proof.
  eexists. split; [vm_compute; reflexivity|]. cbn.
  repeat split; discriminate.
Qed.

(** ** The estimate of a commit group *)

(** The draft entry of a group whose repo is configured with
    [autoCalculate] carries the estimate of the gap heuristic on the
    commits of the group. *)
Lemma processCommits_estimated_hours (repos : list Repo.t)
    (commitsList : list GitCommit.t) (e : DraftEntry.t) (c : GitCommit.t)
    (cfg : Repo.t) :
  In e (processCommits repos commitsList) ->
  In c (DraftEntry.commits e) ->
  Spec.freeOf "_" (GitCommit.repo c) = true ->
  find (fun r => String.eqb (Repo.name r) (GitCommit.repo c)) repos = Some cfg ->
  Repo.autoCalculate cfg = true ->
  DraftEntry.hours e = calculateHours (DraftEntry.commits e).
Proof.
  intros He Hc Hfree Hfind Hauto.
  apply processCommits_inv in He.
  destruct He as (key & repoCommits & -> & _ & Hgroup).
  assert (key = commitKey c) as ->.
  { unfold draftEntry in Hc. cbn [DraftEntry.commits] in Hc.
    rewrite Hgroup in Hc. apply filter_In in Hc.
    symmetry. apply String.eqb_eq, Hc. }
  rewrite draftEntry_hours. cbv zeta.
  rewrite draftEntry_repo, (split_on_free _ _ Hfree). cbn [hd].
  rewrite Hfind, Hauto. reflexivity.
Qed.

(** C2, as the code has it: for a commit group whose repo name holds no
    underscore and whose repo is configured with [autoCalculate], one
    commit estimates 2 hours; two or more commits estimate the sum,
    over the consecutive pairs in ascending time order, of the gap in
    minutes clamped to [[15, 240]], plus 30 minutes, in hours, rounded
    to a nearest half hour and capped at 8.  Two commits 10 minutes
    apart estimate 1 hour: 45 minutes lie midway between 0.5h and 1h;
    two commits 6 hours apart estimate 4.5 hours.  The estimator gives
    0 hours for no commit. *)
Theorem calculateHours_estimate (repos : list Repo.t)
    (commitsList : list GitCommit.t) (e : DraftEntry.t) (c : GitCommit.t)
    (cfg : Repo.t) :
  In e (processCommits repos commitsList) ->
  In c (DraftEntry.commits e) ->
  Spec.freeOf "_" (GitCommit.repo c) = true ->
  find (fun r => String.eqb (Repo.name r) (GitCommit.repo c)) repos = Some cfg ->
  Repo.autoCalculate cfg = true ->
  DraftEntry.hours e = calculateHours (DraftEntry.commits e)
  /\ calculateHours [] = 0%Q
  /\ (List.length (DraftEntry.commits e) = 1%nat -> DraftEntry.hours e = 2%Q)
  /\ ((2 <= List.length (DraftEntry.commits e))%nat ->
      Spec.gapEstimate (DraftEntry.commits e) (DraftEntry.hours e))
  /\ (forall c1 c2,
        DraftEntry.commits e = [c1; c2] ->
        GitCommit.date c2 = GitCommit.date c1 + 10 * 60 * 1000 ->
        (DraftEntry.hours e == 1)%Q)
  /\ (forall c1 c2,
        DraftEntry.commits e = [c1; c2] ->
        GitCommit.date c2 = GitCommit.date c1 + 6 * msPerHour ->
        (DraftEntry.hours e == 9 # 2)%Q).
Proof.
  intros He Hc Hfree Hfind Hauto.
  rewrite (processCommits_estimated_hours repos commitsList e c cfg)
    by assumption.
  set (group := DraftEntry.commits e). clearbody group.
  split; [reflexivity|]. split; [reflexivity|].
  split; [destruct group as [|c0 [|c' rest]]; simpl; intros H;
          try discriminate; reflexivity|].
  split; [apply calculateHours_gaps|].
  split; intros c1 c2 -> Hdate.
  - rewrite (calculateHours_pair c1 c2 (10 * 60 * 1000)) by (assumption || lia).
    vm_compute. reflexivity.
  - rewrite (calculateHours_pair c1 c2 (6 * msPerHour))
      by (assumption || (unfold msPerHour; lia)).
    vm_compute. reflexivity.
Qed.

Lemma calculateHours_estimate_witness :
  DraftEntry.hours
    (draftEntry [Spec.sampleRepo "X" true 2]
       ("2024-03-10_X",
        [Spec.sampleCommit Spec.sampleTime "X";
         Spec.sampleCommit (Spec.sampleTime + 20 * 60000) "X";
         Spec.sampleCommit (Spec.sampleTime + 5 * msPerHour) "X"]))
  = calculateHours
      [Spec.sampleCommit Spec.sampleTime "X";
       Spec.sampleCommit (Spec.sampleTime + 20 * 60000) "X";
       Spec.sampleCommit (Spec.sampleTime + 5 * msPerHour) "X"]
  /\ Spec.gapEstimate
       [Spec.sampleCommit Spec.sampleTime "X";
        Spec.sampleCommit (Spec.sampleTime + 20 * 60000) "X";
        Spec.sampleCommit (Spec.sampleTime + 5 * msPerHour) "X"]
       (DraftEntry.hours
          (draftEntry [Spec.sampleRepo "X" true 2]
             ("2024-03-10_X",
              [Spec.sampleCommit Spec.sampleTime "X";
               Spec.sampleCommit (Spec.sampleTime + 20 * 60000) "X";
               Spec.sampleCommit (Spec.sampleTime + 5 * msPerHour) "X"]))).
Proof.
  destruct (calculateHours_estimate
              [Spec.sampleRepo "X" true 2]
              [Spec.sampleCommit Spec.sampleTime "X";
               Spec.sampleCommit (Spec.sampleTime + 20 * 60000) "X";
               Spec.sampleCommit (Spec.sampleTime + 5 * msPerHour) "X"]
              (draftEntry [Spec.sampleRepo "X" true 2]
                 ("2024-03-10_X",
                  [Spec.sampleCommit Spec.sampleTime "X";
                   Spec.sampleCommit (Spec.sampleTime + 20 * 60000) "X";
                   Spec.sampleCommit (Spec.sampleTime + 5 * msPerHour) "X"]))
              (Spec.sampleCommit Spec.sampleTime "X")
              (Spec.sampleRepo "X" true 2))
    as (H1 & _ & _ & H2 & _).
  - vm_compute. left. reflexivity.
  - simpl. left. reflexivity.
  - reflexivity.
  - reflexivity.
  - reflexivity.
  - split; [exact H1|]. apply H2. cbn [draftEntry DraftEntry.commits List.length]. lia.
Defined.

(** C2 as stated fails: two commits 10 minutes apart estimate 1 hour,
    not half an hour; and the commits of a repo whose name holds an
    underscore are not estimated at all: the lookup of the configuration
    uses the name cut at the underscore, and two commits 6 hours apart
    get the 2 hours of an unknown repo. *)
Lemma calculateHours_ten_minutes_apart :
  (exists e,
      processCommits
        [Spec.sampleRepo "X" true 2]
        [Spec.sampleCommit Spec.sampleTime "X";
         Spec.sampleCommit (Spec.sampleTime + 10 * 60 * 1000) "X"] = [e]
      /\ DraftEntry.commits e
         = [Spec.sampleCommit Spec.sampleTime "X";
            Spec.sampleCommit (Spec.sampleTime + 10 * 60 * 1000) "X"]
      /\ (DraftEntry.hours e == 1)%Q
      /\ ~ (DraftEntry.hours e == 1 # 2)%Q)
  /\ (exists e,
        processCommits
          [Spec.sampleRepo "my_repo" true 2]
          [Spec.sampleCommit Spec.sampleTime "my_repo";
           Spec.sampleCommit (Spec.sampleTime + 6 * msPerHour) "my_repo"] = [e]
        /\ DraftEntry.commits e
           = [Spec.sampleCommit Spec.sampleTime "my_repo";
              Spec.sampleCommit (Spec.sampleTime + 6 * msPerHour) "my_repo"]
        /\ (DraftEntry.hours e == 2)%Q
        /\ ~ (DraftEntry.hours e == 9 # 2)%Q).
Proof.
  split.
  - eexists. split; [vm_compute; reflexivity|]. cbn [DraftEntry.commits DraftEntry.hours].
    split; [reflexivity|]. split; [reflexivity|discriminate].
  - eexists. split; [vm_compute; reflexivity|]. cbn [DraftEntry.commits DraftEntry.hours].
    split; [reflexivity|]. split; [reflexivity|discriminate].
Qed.

(** A total that lies midway can also go down.  The gaps of 1558, 1991
    and 951 seconds add up to 75 minutes exactly, 105 minutes with the
    30 of the last commit, midway between 1.5 and 2 hours; the sum of
    the three quotients in binary64 falls just below, and the estimate
    is 1.5 hours. *)
Lemma calculateHours_midway_down :
  let times := [0; 1558000; 3549000; 4500000] in
  (Spec.sumClampedGaps times + 30 == 105)%Q
  /\ (calculateHours (List.map (fun t => Spec.sampleCommit t "X") times)
      == 3 # 2)%Q.
Proof. cbv zeta. split; vm_compute; reflexivity. Qed.

(** On the sample groups, among them the one above, the estimate is the
    one that the binary64 floats of the kernel give. *)
Lemma calculateHours_float_agrees :
  forallb (fun gaps =>
             Binary64.holds (calculateHours_float (Spec.commitsApart gaps))
                            (calculateHours (Spec.commitsApart gaps)))
          Spec.sampleGroups
  = true.
Proof. vm_compute. reflexivity. Qed.

Lemma string_app_inv_head (s a b : string) :
  (s ++ a)%string = (s ++ b)%string -> a = b.
Proof. induction s as [|c s IH]; cbn; intros H; [assumption|]. injection H. auto. Qed.

(** The members of a draft entry share its key, hence one calendar day
    and one repo; the entry names that repo when the name holds no
    underscore. *)
Lemma commitKey_inj (c1 c2 : GitCommit.t) :
  commitKey c1 = commitKey c2 ->
  format_ymd (GitCommit.date c1) = format_ymd (GitCommit.date c2)
  /\ GitCommit.repo c1 = GitCommit.repo c2.
Proof.
  unfold commitKey. cbv zeta. rewrite !format_ymd_startOfDay. intros H.
  pose proof (f_equal (JS.split_on "_") H) as Hs.
  change ("_" ++ GitCommit.repo c1)%string
    with (String "_" (GitCommit.repo c1)) in *.
  change ("_" ++ GitCommit.repo c2)%string
    with (String "_" (GitCommit.repo c2)) in *.
  rewrite !split_on_app in Hs by apply format_ymd_free.
  injection Hs as Hd _. split; [assumption|].
  rewrite Hd in H. apply string_app_inv_head in H. congruence.
Qed.

Lemma processCommits_members (repos : list Repo.t)
    (commitsList : list GitCommit.t) (e : DraftEntry.t) :
  In e (processCommits repos commitsList) ->
  DraftEntry.commits e <> []
  /\ (forall c, In c (DraftEntry.commits e) ->
                In c commitsList /\ DraftEntry.id e = commitKey c)
  /\ (forall c1 c2,
         In c1 (DraftEntry.commits e) -> In c2 (DraftEntry.commits e) ->
         format_ymd (GitCommit.date c1) = format_ymd (GitCommit.date c2)
         /\ GitCommit.repo c1 = GitCommit.repo c2)
  /\ (forall c, In c (DraftEntry.commits e) ->
                Spec.freeOf "_" (GitCommit.repo c) = true ->
                DraftEntry.repo e = GitCommit.repo c).
Proof.
  intros He. apply processCommits_inv in He.
  destruct He as (key & repoCommits & -> & Hne & Hgroup).
  assert (forall c, In c repoCommits -> In c commitsList /\ key = commitKey c)
    as Hkey.
  { intros c Hc. rewrite Hgroup in Hc. apply filter_In in Hc.
    destruct Hc as [Hin Hk]. apply String.eqb_eq in Hk. auto. }
  unfold draftEntry at 1 2 3 4. cbn [DraftEntry.commits DraftEntry.id].
  split; [assumption|]. split; [assumption|]. split.
  - intros c1 c2 H1 H2. apply commitKey_inj.
    destruct (Hkey c1 H1) as [_ <-]. now destruct (Hkey c2 H2) as [_ <-].
  - intros c Hc Hfree. destruct (Hkey c Hc) as [_ ->].
    rewrite draftEntry_repo, (split_on_free _ _ Hfree). reflexivity.
Qed.

(** ** Loading the data of a plan *)

(** C10, as the code has it: when a remote fetch of [loadPlanData]
    fails, the operation leaves an error message for the caller, clears
    the entry list and the task list, resets the loading flag and keeps
    the bucket selection; the bucket list is the fetched one when the
    bucket fetch had resolved, the previous one otherwise; each request
    is issued at most once, and none after the failure. *)
Theorem loadPlanData_failure (graphService : App.GraphService)
    (planId : string) (s : App.State) (err : App.Thrown) :
  Spec.fetchFails graphService planId err ->
  let s' := fst (App.loadPlanData graphService planId s) in
  let requests := snd (App.loadPlanData graphService planId s) in
  App.error s' = Some (Spec.failureMessage err)
  /\ App.entries s' = []
  /\ App.allMyTasks s' = []
  /\ App.loading s' = false
  /\ App.selectedBucketId s' = App.selectedBucketId s
  /\ App.buckets s'
     = match App.getBuckets graphService planId with
       | App.Resolved bs => bs
       | App.Rejected _ => App.buckets s
       end
  /\ requests
     = match App.getBuckets graphService planId with
       | App.Resolved _ => [App.GetBuckets planId; App.GetMyTasks 3]
       | App.Rejected _ => [App.GetBuckets planId]
       end
  /\ NoDup requests.
Proof.
  unfold Spec.fetchFails, Spec.failureMessage, App.loadPlanData.
  intros [Hb | (bs & Hb & Ht)]; rewrite Hb; [|rewrite Ht]; cbn;
    unfold App.onFailure;
    destruct (App.isError err && JS.includes "429" (App.message err)); cbn;
    repeat split; try reflexivity;
    repeat constructor; cbn; intuition discriminate.
Qed.

Lemma loadPlanData_failure_witness :
  App.entries (fst (App.loadPlanData Spec.rateLimited "plan-1" Spec.sampleState))
  = []
  /\ App.error (fst (App.loadPlanData Spec.rateLimited "plan-1" Spec.sampleState))
     = Some "Too many requests. Please wait a moment and try again."
  /\ snd (App.loadPlanData Spec.rateLimited "plan-1" Spec.sampleState)
     = [App.GetBuckets "plan-1"].
Proof.
  destruct (loadPlanData_failure Spec.rateLimited "plan-1" Spec.sampleState
              (App.mkThrown true "HTTP 429"))
    as (Herr & Hentries & _ & _ & _ & _ & Hreq & _).
  - left. reflexivity.
  - split; [exact Hentries|]. split; [exact Herr|exact Hreq].
Defined.

(** C10 as stated fails: a failed fetch does not leave the loaded
    entries untouched; they are cleared. *)
Lemma loadPlanData_clears_entries :
  App.getBuckets Spec.rateLimited "plan-1"
  = App.Rejected (App.mkThrown true "HTTP 429")
  /\ App.entries Spec.sampleState = Spec.sampleEntries
  /\ App.entries (fst (App.loadPlanData Spec.rateLimited "plan-1" Spec.sampleState))
     = []
  /\ App.entries (fst (App.loadPlanData Spec.rateLimited "plan-1" Spec.sampleState))
     <> App.entries Spec.sampleState.
Proof. repeat split; cbn; discriminate. Qed.

